(** * Verification of the chat attachment ingestion core
    (src/src/gateway/chat-attachments.ts).

    JavaScript strings are modelled as byte strings ([String.string]);
    whitespace for [trim] and line terminators for the regex [.] are the
    ASCII ones.  Decoded buffers are lists of bytes held in [Z]
    (values 0..255).  Thrown [Error]s become the [Throw] branch of a small
    result type; the detector [detectMime] of ../media/mime.js is a
    parameter of the development. *)

From Stdlib Require Import String Ascii List ZArith Lia Bool Arith.
From Stdlib Require Import Numbers.DecimalString.
Import ListNotations.
Open Scope string_scope.
Open Scope nat_scope.

(* ------------------------------------------------------------------ *)
(** ** String primitives used by the source *)

Definition ascii_eqb (a b : ascii) : bool := Ascii.eqb a b.

(** ASCII part of ECMAScript's WhiteSpace / LineTerminator set. *)
Definition is_ws (c : ascii) : bool :=
  let n := nat_of_ascii c in
  (n =? 32) || (n =? 9) || (n =? 10) || (n =? 11) || (n =? 12) || (n =? 13).

Fixpoint trim_start (s : string) : string :=
  match s with
  | EmptyString => EmptyString
  | String c r => if is_ws c then trim_start r else s
  end.

Fixpoint trim_end (s : string) : string :=
  match s with
  | EmptyString => EmptyString
  | String c r =>
      let r' := trim_end r in
      match r' with
      | EmptyString => if is_ws c then EmptyString else String c EmptyString
      | _ => String c r'
      end
  end.

(** [String.prototype.trim] *)
Definition trim (s : string) : string := trim_end (trim_start s).

(** [String.prototype.toLowerCase] on ASCII letters. *)
Definition lower_ascii (c : ascii) : ascii :=
  let n := nat_of_ascii c in
  if (65 <=? n) && (n <=? 90) then ascii_of_nat (n + 32) else c.

Fixpoint toLowerCase (s : string) : string :=
  match s with
  | EmptyString => EmptyString
  | String c r => String (lower_ascii c) (toLowerCase r)
  end.

(** [s.split(";")[0]] : the text before the first [;]. *)
Fixpoint before_semicolon (s : string) : string :=
  match s with
  | EmptyString => EmptyString
  | String c r => if ascii_eqb c ";" then EmptyString else String c (before_semicolon r)
  end.

(** [s.replace(/a/g, b)] for a one-character pattern. *)
Fixpoint replace_all (a b : ascii) (s : string) : string :=
  match s with
  | EmptyString => EmptyString
  | String c r => String (if ascii_eqb c a then b else c) (replace_all a b r)
  end.

(** ["=".repeat(n)] *)
Fixpoint repeat_char (c : ascii) (n : nat) : string :=
  match n with
  | O => EmptyString
  | S k => String c (repeat_char c k)
  end.

(** [s.startsWith(p)] *)
Definition startsWith (s p : string) : bool := String.prefix p s.

(** Decimal rendering of a number in a template literal. *)
Definition nat_to_string (n : nat) : string :=
  NilEmpty.string_of_uint (Nat.to_uint n).

(* ------------------------------------------------------------------ *)
(** ** normalizeMime, stripDataUrlPrefix, normalizeBase64ForDecode *)

(** [normalizeMime(mime?: string)]: [!mime] holds for [undefined] and [""];
    the result [cleaned || undefined] is absent when empty. *)
Definition normalizeMime (mime : option string) : option string :=
  match mime with
  | None | Some EmptyString => None
  | Some m =>
      match toLowerCase (trim (before_semicolon m)) with
      | EmptyString => None
      | cleaned => Some cleaned
      end
  end.

(** Characters matched by the regex [.] (no line terminator). *)
Fixpoint no_line_terminator (s : string) : bool :=
  match s with
  | EmptyString => true
  | String c r => negb ((nat_of_ascii c =? 10) || (nat_of_ascii c =? 13)) && no_line_terminator r
  end.

(** Split at the first [;]: the text before it, and the rest starting at it. *)
Fixpoint split_semicolon (s : string) : string * string :=
  match s with
  | EmptyString => (EmptyString, EmptyString)
  | String c r =>
      if ascii_eqb c ";" then (EmptyString, s)
      else let (a, b) := split_semicolon r in (String c a, b)
  end.

(** The data-URL regex of [stripDataUrlPrefix]: [data:], one or more
    non-[;] characters, [;base64,], then a payload of non-line-terminator
    characters up to the end, captured.  The non-[;] run cannot cross a [;],
    so the only candidate split is at the first [;] after [data:]. *)
Definition data_url_payload (trimmed : string) : option string :=
  if String.prefix "data:" trimmed then
    let rest := substring 5 (String.length trimmed - 5) trimmed in
    let (mt, tail) := split_semicolon rest in
    match mt with
    | EmptyString => None
    | _ =>
        if String.prefix ";base64," tail then
          let payload := substring 8 (String.length tail - 8) tail in
          if no_line_terminator payload then Some payload else None
        else None
    end
  else None.

Definition stripDataUrlPrefix (content : string) : string :=
  let trimmed := trim content in
  match data_url_payload trimmed with
  | Some payload => payload
  | None => trimmed
  end.

Definition normalizeBase64ForDecode (content : string) : string :=
  let s := trim (stripDataUrlPrefix content) in
  let s := replace_all "_" "/" (replace_all "-" "+" s) in
  let remainder := String.length s mod 4 in
  if remainder =? 0 then s else s ++ repeat_char "=" (4 - remainder).

(** [/[^A-Za-z0-9+/=]/.test(b64)] *)
Definition is_b64_char (c : ascii) : bool :=
  let n := nat_of_ascii c in
  ((65 <=? n) && (n <=? 90)) || ((97 <=? n) && (n <=? 122)) ||
  ((48 <=? n) && (n <=? 57)) || (n =? 43) || (n =? 47) || (n =? 61).

Fixpoint has_illegal_b64 (s : string) : bool :=
  match s with
  | EmptyString => false
  | String c r => negb (is_b64_char c) || has_illegal_b64 r
  end.

(* ------------------------------------------------------------------ *)
(** ** [Buffer.from(s, "base64")] (Node.js)

    Node allocates [base64ByteLength] bytes (length minus up to two
    trailing [=], times 3/4), decodes characters of its table, skips the
    others, stops at the first [=], and slices the buffer to the bytes
    written. It never throws on a string. *)

Definition unbase64 (c : ascii) : option Z :=
  let n := Z.of_nat (nat_of_ascii c) in
  if (65 <=? n)%Z && (n <=? 90)%Z then Some (n - 65)%Z
  else if (97 <=? n)%Z && (n <=? 122)%Z then Some (n - 71)%Z
  else if (48 <=? n)%Z && (n <=? 57)%Z then Some (n + 4)%Z
  else if (n =? 43)%Z || (n =? 45)%Z then Some 62%Z
  else if (n =? 47)%Z || (n =? 95)%Z then Some 63%Z
  else None.

Fixpoint sextets (s : string) : list Z :=
  match s with
  | EmptyString => []
  | String c r =>
      match unbase64 c with
      | Some v => v :: sextets r
      | None => if ascii_eqb c "=" then [] else sextets r
      end
  end.

Fixpoint bytes_of_sextets (l : list Z) : list Z :=
  match l with
  | a :: b :: c :: d :: r =>
      Z.land (Z.lor (Z.shiftl a 2) (Z.shiftr b 4)) 255
      :: Z.land (Z.lor (Z.shiftl b 4) (Z.shiftr c 2)) 255
      :: Z.land (Z.lor (Z.shiftl c 6) d) 255
      :: bytes_of_sextets r
  | [a; b; c] =>
      [Z.land (Z.lor (Z.shiftl a 2) (Z.shiftr b 4)) 255;
       Z.land (Z.lor (Z.shiftl b 4) (Z.shiftr c 2)) 255]
  | [a; b] => [Z.land (Z.lor (Z.shiftl a 2) (Z.shiftr b 4)) 255]
  | _ => []
  end.

Definition last_is_eq (s : string) (len : nat) : bool :=
  match String.get (len - 1) s with
  | Some c => (0 <? len) && ascii_eqb c "="
  | None => false
  end.

(** [base64ByteLength(str, bytes)] *)
Definition base64ByteLength (s : string) : nat :=
  let b := String.length s in
  let b := if last_is_eq s b then b - 1 else b in
  let b := if (1 <? b) && last_is_eq s b then b - 1 else b in
  (b * 3) / 4.

Definition Buffer := list Z.

Definition bufferFromBase64 (s : string) : Buffer :=
  firstn (base64ByteLength s) (bytes_of_sextets (sextets s)).

(* ------------------------------------------------------------------ *)
(** ** Data model *)

(** [content?: unknown]: a string, or any other JavaScript value
    (undefined, a Buffer, a number, ...). *)
Inductive Unknown :=
| UString (s : string)
| UNonString.

(** [ChatAttachment]; [NormalizedAttachment] has the same fields, and the
    code still tests [typeof att.content], so one record serves both. *)
Record ChatAttachment := {
  att_type : option string;
  att_mimeType : option string;
  att_fileName : option string;
  att_content : Unknown
}.

Record ChatImageContent := {
  img_type : string;   (** always ["image"] *)
  img_data : string;
  img_mimeType : string
}.

Record ParsedMessageWithImages := {
  parsed_message : string;
  parsed_images : list ChatImageContent
}.

Record FirstAudioResult := {
  buffer : Buffer;
  audio_mimeType : string
}.

(** One constructor per [throw new Error(...)] site. *)
Inductive AttachmentError :=
| ContentNotBase64String (label : string)
| InvalidBase64Content (label : string)
| ExceedsSizeLimit (label : string) (size limit : N)
| OnlyImageSupported (label : string).

Definition N_to_string (n : N) : string :=
  NilEmpty.string_of_uint (N.to_uint n).

(** The [Error] message of each throw site. *)
Definition error_message (e : AttachmentError) : string :=
  match e with
  | ContentNotBase64String l => "attachment " ++ l ++ ": content must be base64 string"
  | InvalidBase64Content l => "attachment " ++ l ++ ": invalid base64 content"
  | ExceedsSizeLimit l n m =>
      "attachment " ++ l ++ ": exceeds size limit (" ++ N_to_string n ++ " > "
      ++ N_to_string m ++ " bytes)"
  | OnlyImageSupported l => "attachment " ++ l ++ ": only image/* supported"
  end.

(** A call returns a value or throws. *)
Inductive Result (A : Type) :=
| Ok (a : A)
| Throw (e : AttachmentError).
Arguments Ok {A} a.
Arguments Throw {A} e.

Notation "x <- m ;; k" :=
  (match m with Ok x => k | Throw e => Throw e end)
  (at level 61, m at next level, right associativity).

(** [att.fileName || att.type || `attachment-${idx + 1}`] *)
Definition attachment_label (idx : nat) (att : ChatAttachment) : string :=
  match att_fileName att with
  | Some (String _ _ as f) => f
  | _ =>
      match att_type att with
      | Some (String _ _ as t) => t
      | _ => "attachment-" ++ nat_to_string (idx + 1)
      end
  end.

(** [att.mimeType ?? ""] *)
Definition mime_or_empty (att : ChatAttachment) : string :=
  match att_mimeType att with
  | Some m => m
  | None => ""
  end.

Definition isImageMime (mime : option string) : bool :=
  match mime with
  | Some m => startsWith m "image/"
  | None => false
  end.

Definition isAudioMime (mime : option string) : bool :=
  match mime with
  | Some m => startsWith m "audio/"
  | None => false
  end.

Definition option_string_eqb (a b : option string) : bool :=
  match a, b with
  | Some x, Some y => String.eqb x y
  | None, None => true
  | _, _ => false
  end.

(** [sizeBytes <= 0 || sizeBytes > maxBytes] *)
Definition size_out_of_range (sizeBytes maxBytes : N) : bool :=
  (sizeBytes =? 0)%N || (maxBytes <? sizeBytes)%N.

Section WithDetector.

(** [detectMime({ buffer })] of ../media/mime.js. *)
Variable detectMime : Buffer -> option string.

Definition sniffMimeFromBase64 (base64 : string) : option string :=
  let normalized := normalizeBase64ForDecode base64 in
  match normalized with
  | EmptyString => None
  | _ =>
      let take := Nat.min 256 (String.length normalized) in
      let sliceLen := take - take mod 4 in
      if sliceLen <? 8 then None
      else detectMime (bufferFromBase64 (substring 0 sliceLen normalized))
  end.

(** [decodeAndValidateAudioAttachment(att, idx, maxBytes)] where
    [att.content] is the string [content]. *)
Definition decodeAndValidateAudioAttachment (att : ChatAttachment) (content : string)
    (idx : nat) (maxBytes : N) : Result (option FirstAudioResult) :=
  let label := attachment_label idx att in
  let b64 := normalizeBase64ForDecode content in
  if has_illegal_b64 b64 then Throw (InvalidBase64Content label) else
  let buf := bufferFromBase64 b64 in
  let byteLength := N.of_nat (length buf) in
  if size_out_of_range byteLength maxBytes then Throw (ExceedsSizeLimit label byteLength maxBytes) else
  let mimeType :=
    match normalizeMime (att_mimeType att) with
    | Some m => m
    | None =>
        match detectMime buf with
        | Some m => m
        | None => "audio/octet-stream"
        end
    end in
  if negb (isAudioMime (Some mimeType)) then Ok None
  else Ok (Some {| buffer := buf; audio_mimeType := mimeType |}).

(** The body of the [for (const [idx, att] of attachments.entries())]
    loop of [getFirstAudioAttachment]: [Some] is the value returned, [None]
    moves on to the next attachment ([continue] or end of the body). *)
Definition audio_step (maxBytes : N) (idx : nat) (att : ChatAttachment)
    : Result (option FirstAudioResult) :=
  match att_content att with
  | UNonString => Ok None
  | UString content =>
      let providedMime := normalizeMime (Some (mime_or_empty att)) in
      r1 <- (if isAudioMime providedMime
             then decodeAndValidateAudioAttachment att content idx maxBytes
             else Ok None) ;;
      match r1 with
      | Some result => Ok (Some result)
      | None =>
          let sniffedMime := normalizeMime (sniffMimeFromBase64 content) in
          if isAudioMime sniffedMime
          then decodeAndValidateAudioAttachment att content idx maxBytes
          else Ok None
      end
  end.

Fixpoint first_audio_loop (maxBytes : N) (idx : nat) (atts : list ChatAttachment)
    : Result (option FirstAudioResult) :=
  match atts with
  | [] => Ok None
  | att :: rest =>
      r <- audio_step maxBytes idx att ;;
      match r with
      | Some result => Ok (Some result)
      | None => first_audio_loop maxBytes (S idx) rest
      end
  end.

Definition getFirstAudioAttachment (attachments : option (list ChatAttachment))
    (maxBytes : N) : Result (option FirstAudioResult) :=
  match attachments with
  | None | Some [] => Ok None
  | Some atts => first_audio_loop maxBytes 0 atts
  end.

(** One iteration of the loop of [parseMessageWithAttachments]: the image
    pushed (if any) and the warnings passed to [log.warn]. *)
Definition parse_step (maxBytes : N) (idx : nat) (att : ChatAttachment)
    : Result (option ChatImageContent * list string) :=
  let mime := mime_or_empty att in
  let label := attachment_label idx att in
  match att_content att with
  | UNonString => Throw (ContentNotBase64String label)
  | UString content =>
      let b64 := normalizeBase64ForDecode content in
      if has_illegal_b64 b64 then Throw (InvalidBase64Content label) else
      let sizeBytes := N.of_nat (length (bufferFromBase64 b64)) in
      if size_out_of_range sizeBytes maxBytes then Throw (ExceedsSizeLimit label sizeBytes maxBytes) else
      let providedMime := normalizeMime (Some mime) in
      let sniffedMime := normalizeMime (sniffMimeFromBase64 b64) in
      let sniffedIsAudio := isAudioMime sniffedMime in
      let providedIsAudio := isAudioMime providedMime in
      let isM4aAudio := providedIsAudio && option_string_eqb sniffedMime (Some "video/mp4") in
      match sniffedMime with
      | Some s =>
          if negb (isImageMime sniffedMime) then
            if negb sniffedIsAudio && negb isM4aAudio
            then Ok (None, ["attachment " ++ label ++ ": detected non-image (" ++ s ++ "), dropping"])
            else Ok (None, [])
          else
            let warns :=
              match providedMime with
              | Some p =>
                  if negb (String.eqb s p)
                  then ["attachment " ++ label ++ ": mime mismatch (" ++ p ++ " -> " ++ s ++ "), using sniffed"]
                  else []
              | None => []
              end in
            Ok (Some {| img_type := "image"; img_data := b64; img_mimeType := s |}, warns)
      | None =>
          if negb (isImageMime providedMime) then
            if negb providedIsAudio
            then Ok (None, ["attachment " ++ label ++ ": unable to detect image mime type, dropping"])
            else Ok (None, [])
          else
            let mt := match providedMime with Some p => p | None => mime end in
            Ok (Some {| img_type := "image"; img_data := b64; img_mimeType := mt |}, [])
      end
  end.

Definition option_to_list {A} (o : option A) : list A :=
  match o with Some x => [x] | None => [] end.

(** The loop of [parseMessageWithAttachments] from index [idx]: the
    warnings received by the sink ([log] present or not), and the image
    list or the error thrown. *)
Fixpoint collect_images (log : bool) (maxBytes : N) (idx : nat) (atts : list ChatAttachment)
    : list string * Result (list ChatImageContent) :=
  match atts with
  | [] => ([], Ok [])
  | att :: rest =>
      match parse_step maxBytes idx att with
      | Throw e => ([], Throw e)
      | Ok (img, warns) =>
          let (warns', r) := collect_images log maxBytes (S idx) rest in
          (((if log then warns else []) ++ warns')%list,
           match r with
           | Ok imgs => Ok (option_to_list img ++ imgs)%list
           | Throw e => Throw e
           end)
      end
  end.

(** [opts?: { maxBytes?: number; log?: AttachmentLog }] *)
Record ParseOpts := {
  opt_maxBytes : option N;
  opt_log : bool
}.

Definition parseMessageWithAttachments (message : string)
    (attachments : option (list ChatAttachment)) (opts : option ParseOpts)
    : list string * Result ParsedMessageWithImages :=
  let maxBytes :=
    match opts with
    | Some o => match opt_maxBytes o with Some m => m | None => 5000000%N end
    | None => 5000000%N
    end in
  let log := match opts with Some o => opt_log o | None => false end in
  match attachments with
  | None | Some [] => ([], Ok {| parsed_message := message; parsed_images := [] |})
  | Some atts =>
      let (warns, r) := collect_images log maxBytes 0 atts in
      (warns,
       match r with
       | Ok images => Ok {| parsed_message := message; parsed_images := images |}
       | Throw e => Throw e
       end)
  end.

(** The classification of Section 4.4 as the lenient path applies it, read
    off the branches of [parse_step] taken once validation has passed: an
    attachment whose sniffed type is an image, or which has no sniffed type
    and a declared image type, yields the image record
    [{type: "image", data: canonical base64, mimeType: resolved}]. *)
Definition classified_image (att : ChatAttachment) : option ChatImageContent :=
  match att_content att with
  | UNonString => None
  | UString content =>
      let b64 := normalizeBase64ForDecode content in
      match normalizeMime (sniffMimeFromBase64 b64) with
      | Some s =>
          if isImageMime (Some s)
          then Some {| img_type := "image"; img_data := b64; img_mimeType := s |}
          else None
      | None =>
          match normalizeMime (Some (mime_or_empty att)) with
          | Some p =>
              if isImageMime (Some p)
              then Some {| img_type := "image"; img_data := b64; img_mimeType := p |}
              else None
          | None => None
          end
      end
  end.

End WithDetector.

(* ------------------------------------------------------------------ *)
(** ** buildMessageWithAttachments (deprecated legacy encoder) *)

(** [label.replace(/\s+/g, "_")] *)
Fixpoint ws_runs_to_underscore (prev_ws : bool) (s : string) : string :=
  match s with
  | EmptyString => EmptyString
  | String c r =>
      if is_ws c then
        if prev_ws then ws_runs_to_underscore true r
        else String "_" (ws_runs_to_underscore true r)
      else String c (ws_runs_to_underscore false r)
  end.

(** One iteration of the loop of [buildMessageWithAttachments]: the
    markdown block pushed. *)
Definition legacy_step (maxBytes : N) (idx : nat) (att : ChatAttachment) : Result string :=
  let mime := mime_or_empty att in
  let label := attachment_label idx att in
  match att_content att with
  | UNonString => Throw (ContentNotBase64String label)
  | UString content =>
      if negb (startsWith mime "image/") then Throw (OnlyImageSupported label) else
      let b64 := trim content in
      if negb (String.length b64 mod 4 =? 0) || has_illegal_b64 b64
      then Throw (InvalidBase64Content label) else
      let sizeBytes := N.of_nat (length (bufferFromBase64 b64)) in
      if size_out_of_range sizeBytes maxBytes then Throw (ExceedsSizeLimit label sizeBytes maxBytes) else
      let safeLabel := ws_runs_to_underscore false label in
      Ok ("![" ++ safeLabel ++ "](data:" ++ mime ++ ";base64," ++ content ++ ")")
  end.

Fixpoint legacy_loop (maxBytes : N) (idx : nat) (atts : list ChatAttachment) : Result (list string) :=
  match atts with
  | [] => Ok []
  | att :: rest =>
      block <- legacy_step maxBytes idx att ;;
      blocks <- legacy_loop maxBytes (S idx) rest ;;
      Ok (block :: blocks)
  end.

(** ["\n\n"] *)
Definition blank_line : string := String (ascii_of_nat 10) (String (ascii_of_nat 10) EmptyString).

(** [opts?: { maxBytes?: number }] is [option (option N)]. *)
Definition buildMessageWithAttachments (message : string)
    (attachments : option (list ChatAttachment)) (opts : option (option N)) : Result string :=
  let maxBytes :=
    match opts with
    | Some (Some m) => m
    | _ => 2000000%N
    end in
  match attachments with
  | None | Some [] => Ok message
  | Some atts =>
      blocks <- legacy_loop maxBytes 0 atts ;;
      match blocks with
      | [] => Ok message
      | _ =>
          let separator := if 0 <? String.length (trim message) then blank_line else "" in
          Ok (message ++ separator ++ String.concat blank_line blocks)
      end
  end.

(* ------------------------------------------------------------------ *)
(** ** A signature detector *)

Fixpoint bytes_prefix (p l : list Z) : bool :=
  match p, l with
  | [], _ => true
  | x :: p', y :: l' => (x =? y)%Z && bytes_prefix p' l'
  | _ :: _, [] => false
  end.

(** Modelled from the spec: [detectMime] of ../media/mime.js, which is not
    part of the sources.  Section 4.2 and the data model describe it as
    magic-byte signature detection returning a lowercase MIME type with no
    parameters, or nothing.  A table of common signatures: PNG, JPEG, GIF,
    ID3-tagged MP3, Ogg, PDF, and the ISO-BMFF [ftyp] box of MPEG-4. *)
Definition detectMimeSpec (buf : Buffer) : option string :=
  if bytes_prefix [137; 80; 78; 71; 13; 10; 26; 10]%Z buf then Some "image/png"
  else if bytes_prefix [255; 216; 255]%Z buf then Some "image/jpeg"
  else if bytes_prefix [71; 73; 70; 56]%Z buf then Some "image/gif"
  else if bytes_prefix [73; 68; 51]%Z buf then Some "audio/mpeg"
  else if bytes_prefix [79; 103; 103; 83]%Z buf then Some "audio/ogg"
  else if bytes_prefix [37; 80; 68; 70]%Z buf then Some "application/pdf"
  else if bytes_prefix [102; 116; 121; 112]%Z (skipn 4 buf) then Some "video/mp4"
  else None.

(** An attachment declared audio whose content is not a string. *)
Definition non_string_audio : ChatAttachment :=
  {| att_type := None; att_mimeType := Some "audio/ogg"; att_fileName := None;
     att_content := UNonString |}.

(* ------------------------------------------------------------------ *)
(** ** Predicates on MIME strings *)

Fixpoint forall_chars (p : ascii -> bool) (s : string) : bool :=
  match s with
  | EmptyString => true
  | String c r => p c && forall_chars p r
  end.

Definition is_upper (c : ascii) : bool :=
  let n := nat_of_ascii c in (65 <=? n) && (n <=? 90).

(** Lowercase and parameter-free: no uppercase letter and no [;]. *)
Definition mime_char_ok (c : ascii) : bool :=
  negb (is_upper c) && negb (ascii_eqb c ";").

Definition mime_well_formed (m : string) : bool := forall_chars mime_char_ok m.

(** [x] occurs in [w]. *)
Definition substring_of (x w : string) : Prop :=
  exists pre post, w = pre ++ x ++ post.

(* ------------------------------------------------------------------ *)
(** ** Sample attachments *)

Definition attachment_of (mime : option string) (content : string) : ChatAttachment :=
  {| att_type := None; att_mimeType := mime; att_fileName := None;
     att_content := UString content |}.

(** The eight-byte PNG signature. *)
Definition png_b64 : string := "iVBORw0KGgo=".
(** A JPEG start-of-image and APP0 marker, [FF D8 FF E0]. *)
Definition jpeg_b64 : string := "/9j/4A==".
(** The same four bytes, URL-safe alphabet and no padding. *)
Definition jpeg_urlsafe_b64 : string := "_9j_4A".
(** An ID3v2.4 tag header (MP3). *)
Definition mp3_b64 : string := "SUQzBAAAAAAAAA==".
(** An Ogg page header. *)
Definition ogg_b64 : string := "T2dnUwACAAA=".
(** An MPEG-4 [ftyp] box with brand [M4A ]. *)
Definition m4a_b64 : string := "AAAAGGZ0eXBNNEEg".
(** [%PDF-1.4] *)
Definition pdf_b64 : string := "JVBERi0xLjQ=".

(** Declared [application/octet-stream], bytes of an MP3 file. *)
Definition octet_stream_mp3 : ChatAttachment :=
  attachment_of (Some "application/octet-stream") mp3_b64.

(** Declared [image/jpeg], JPEG bytes in URL-safe unpadded base64. *)
Definition jpeg_urlsafe_att : ChatAttachment :=
  attachment_of (Some "image/jpeg") jpeg_urlsafe_b64.


(* ------------------------------------------------------------------ *)
(** ** Predicates used by the further properties *)

(** Neither [-] nor [_], the two letters of the URL-safe alphabet. *)
Definition no_urlsafe_char (c : ascii) : bool :=
  negb (ascii_eqb c "-") && negb (ascii_eqb c "_").

(** A character of the alphabet check other than the padding [=]. *)
Definition is_b64_data_char (c : ascii) : bool :=
  is_b64_char c && negb (ascii_eqb c "=").

(** A character of a base64 payload, standard or URL-safe alphabet. *)
Definition is_payload_char (c : ascii) : bool :=
  is_b64_char c || ascii_eqb c "-" || ascii_eqb c "_".

(** [data:<mt>;base64,<c>], the data URL of a payload. *)
Definition as_data_url (mt c : string) : string := "data:" ++ mt ++ ";base64," ++ c.

(** An image record of the lenient path: type ["image"], a lowercase
    parameter-free [image/] type, and canonical base64 data whose decoding
    has 1 to [maxBytes] bytes. *)
Definition image_record_ok (maxBytes : N) (img : ChatImageContent) : Prop :=
  img_type img = "image" /\
  startsWith (img_mimeType img) "image/" = true /\
  mime_well_formed (img_mimeType img) = true /\
  has_illegal_b64 (img_data img) = false /\
  String.length (img_data img) mod 4 = 0 /\
  (1 <= N.of_nat (length (bufferFromBase64 (img_data img))) <= maxBytes)%N.

(** [a] is [b] with its payload [c] sent as a data URL: same type, declared
    MIME and file name, content [data:<mt>;base64,<c>] instead of [c]. *)
Definition data_url_variant (a b : ChatAttachment) : Prop :=
  att_type a = att_type b /\ att_mimeType a = att_mimeType b /\
  att_fileName a = att_fileName b /\
  exists mt c, mt <> EmptyString /\
    forall_chars (fun x => negb (ascii_eqb x ";")) mt = true /\
    forall_chars is_payload_char c = true /\
    att_content a = UString (as_data_url mt c) /\ att_content b = UString c.

Definition same_or_data_url (a b : ChatAttachment) : Prop := a = b \/ data_url_variant a b.

(** An Ogg attachment declared [audio/ogg]. *)
Definition ogg_att : ChatAttachment := attachment_of (Some "audio/ogg") ogg_b64.

(** A PNG attachment declared [image/png]. *)
Definition png_att : ChatAttachment := attachment_of (Some "image/png") png_b64.


(* ------------------------------------------------------------------ *)
(** ** Lemmas on the string primitives *)

Ltac ascii_cases c :=
  destruct c as [[] [] [] [] [] [] [] []].

Ltac split_ifs_in H :=
  repeat match type of H with
         | context [if ?b then _ else _] => destruct b
         end.

Ltac split_ifs :=
  repeat match goal with
         | |- context [if ?b then _ else _] => destruct b
         end.

Lemma b64_char_not_ws (c : ascii) : is_b64_char c = true -> is_ws c = false.
Proof. ascii_cases c; vm_compute; congruence. Qed.

Lemma b64_char_not_dash (c : ascii) : is_b64_char c = true -> ascii_eqb c "-" = false.
Proof. ascii_cases c; vm_compute; congruence. Qed.

Lemma b64_char_not_underscore (c : ascii) : is_b64_char c = true -> ascii_eqb c "_" = false.
Proof. ascii_cases c; vm_compute; congruence. Qed.

Lemma has_illegal_cons (c : ascii) (r : string) :
  has_illegal_b64 (String c r) = false -> is_b64_char c = true /\ has_illegal_b64 r = false.
Proof. simpl. destruct (is_b64_char c), (has_illegal_b64 r); simpl; intuition congruence. Qed.

Lemma trim_start_b64 (s : string) : has_illegal_b64 s = false -> trim_start s = s.
Proof.
  destruct s as [|c r]; [reflexivity|].
  intros H. apply has_illegal_cons in H as [Hc _].
  simpl. rewrite (b64_char_not_ws c Hc). reflexivity.
Qed.

Lemma trim_end_b64 (s : string) : has_illegal_b64 s = false -> trim_end s = s.
Proof.
  induction s as [|c r IH]; [reflexivity|].
  intros H. apply has_illegal_cons in H as [Hc Hr].
  simpl. rewrite (IH Hr).
  destruct r; [rewrite (b64_char_not_ws c Hc)|]; reflexivity.
Qed.

Lemma trim_b64 (s : string) : has_illegal_b64 s = false -> trim s = s.
Proof.
  intros H. unfold trim. rewrite (trim_start_b64 s H). apply trim_end_b64, H.
Qed.

Lemma replace_dash_b64 (s : string) : has_illegal_b64 s = false -> replace_all "-" "+" s = s.
Proof.
  induction s as [|c r IH]; [reflexivity|].
  intros H. apply has_illegal_cons in H as [Hc Hr].
  simpl. rewrite (b64_char_not_dash c Hc), (IH Hr). reflexivity.
Qed.

Lemma replace_underscore_b64 (s : string) : has_illegal_b64 s = false -> replace_all "_" "/" s = s.
Proof.
  induction s as [|c r IH]; [reflexivity|].
  intros H. apply has_illegal_cons in H as [Hc Hr].
  simpl. rewrite (b64_char_not_underscore c Hc), (IH Hr). reflexivity.
Qed.

(** A text that starts with [data:] contains [:], which is outside the
    base64 alphabet. *)
Lemma data_url_payload_b64 (s : string) : has_illegal_b64 s = false -> data_url_payload s = None.
Proof.
  intros H. unfold data_url_payload.
  destruct (String.prefix "data:" s) eqn:Hp; [|reflexivity].
  exfalso.
  apply prefix_correct in Hp.
  destruct s as [|c1 [|c2 [|c3 [|c4 [|c5 r]]]]]; simpl in Hp; try discriminate.
  injection Hp as -> -> -> -> ->.
  simpl in H. discriminate.
Qed.

Lemma length_append (s1 s2 : string) : String.length (s1 ++ s2) = String.length s1 + String.length s2.
Proof. induction s1 as [|c r IH]; simpl; [reflexivity|rewrite IH; reflexivity]. Qed.

Lemma length_repeat_char (c : ascii) (n : nat) : String.length (repeat_char c n) = n.
Proof. induction n as [|n IH]; simpl; [reflexivity|rewrite IH; reflexivity]. Qed.

(** The normalizer always yields a length that is a multiple of 4. *)
Lemma normalize_length_mod4 (content : string) :
  String.length (normalizeBase64ForDecode content) mod 4 = 0.
Proof.
  unfold normalizeBase64ForDecode.
  set (s := replace_all "_" "/" _).
  destruct (String.length s mod 4 =? 0) eqn:Hr.
  - apply Nat.eqb_eq, Hr.
  - rewrite length_append, length_repeat_char.
    pose proof (Nat.div_mod_eq (String.length s) 4) as Hd.
    pose proof (Nat.mod_upper_bound (String.length s) 4 ltac:(lia)) as Hb.
    replace (String.length s + (4 - String.length s mod 4))
      with ((String.length s / 4 + 1) * 4) by lia.
    apply Nat.Div0.mod_mul.
Qed.

(** When the trimmed content is already in the base64 alphabet with a length
    that is a multiple of 4, the normalizer returns the trimmed content. *)
Lemma normalize_of_trimmed (content : string) :
  has_illegal_b64 (trim content) = false ->
  String.length (trim content) mod 4 = 0 ->
  normalizeBase64ForDecode content = trim content.
Proof.
  intros Hc Hl. unfold normalizeBase64ForDecode, stripDataUrlPrefix.
  rewrite (data_url_payload_b64 _ Hc), (trim_b64 _ Hc), (replace_dash_b64 _ Hc),
    (replace_underscore_b64 _ Hc), Hl.
  reflexivity.
Qed.

(** Normalizing the output of a successful alphabet check changes nothing. *)
Lemma normalize_idem_valid (content : string) :
  has_illegal_b64 (normalizeBase64ForDecode content) = false ->
  normalizeBase64ForDecode (normalizeBase64ForDecode content) = normalizeBase64ForDecode content.
Proof.
  intros H.
  pose proof (trim_b64 _ H) as Ht.
  rewrite normalize_of_trimmed; rewrite Ht; [reflexivity | exact H | apply normalize_length_mod4].
Qed.

(** Sniffing the canonical text is sniffing the raw content. *)
Lemma sniff_normalized (detectMime : Buffer -> option string) (content : string) :
  has_illegal_b64 (normalizeBase64ForDecode content) = false ->
  sniffMimeFromBase64 detectMime (normalizeBase64ForDecode content)
  = sniffMimeFromBase64 detectMime content.
Proof.
  intros H. unfold sniffMimeFromBase64 at 1. rewrite (normalize_idem_valid _ H). reflexivity.
Qed.

(* ------------------------------------------------------------------ *)
(** ** Lemmas on the loops *)

Section Loops.
Variable detectMime : Buffer -> option string.
Variable maxBytes : N.

Lemma collect_images_throw (log : bool) (pre : list ChatAttachment) (a : ChatAttachment)
    (post : list ChatAttachment) (idx : nat) (e : AttachmentError) :
  (forall k x, nth_error pre k = Some x -> exists v, parse_step detectMime maxBytes (idx + k) x = Ok v) ->
  parse_step detectMime maxBytes (idx + length pre) a = Throw e ->
  snd (collect_images detectMime log maxBytes idx (pre ++ a :: post)%list) = Throw e.
Proof.
  revert idx. induction pre as [|x pre IH]; intros idx Hpre Ha.
  - simpl. rewrite Nat.add_0_r in Ha. rewrite Ha. reflexivity.
  - destruct (Hpre 0 x eq_refl) as [[img ws] Hx].
    rewrite Nat.add_0_r in Hx. simpl. rewrite Hx.
    assert (Hr : snd (collect_images detectMime log maxBytes (S idx) (pre ++ a :: post)%list) = Throw e).
    { apply IH.
      - intros k y Hk. replace (S idx + k) with (idx + S k) by lia. apply (Hpre (S k)). exact Hk.
      - simpl in Ha. replace (S idx + length pre) with (idx + S (length pre)) by lia. exact Ha. }
    destruct (collect_images detectMime log maxBytes (S idx) (pre ++ a :: post)%list) as [w r].
    simpl in Hr |- *. rewrite Hr. reflexivity.
Qed.

Lemma parse_step_image (idx : nat) (a : ChatAttachment) (img : option ChatImageContent)
    (ws : list string) :
  parse_step detectMime maxBytes idx a = Ok (img, ws) -> img = classified_image detectMime a.
Proof.
  unfold parse_step, classified_image.
  destruct (att_content a) as [content|]; [|discriminate].
  destruct (has_illegal_b64 _); [discriminate|].
  destruct (size_out_of_range _ _); [discriminate|].
  cbv zeta.
  destruct (normalizeMime (sniffMimeFromBase64 detectMime _)) as [s|];
    [|destruct (normalizeMime (Some (mime_or_empty a))) as [p|]];
    intros H;
    repeat match type of H with
           | context [isImageMime (Some ?x)] => destruct (isImageMime (Some x))
           | context [isAudioMime (Some ?x)] => destruct (isAudioMime (Some x))
           end;
    simpl in H |- *; split_ifs_in H; injection H as <- _; reflexivity.
Qed.

Lemma collect_images_ok (log : bool) (atts : list ChatAttachment) (idx : nat)
    (imgs : list ChatImageContent) :
  snd (collect_images detectMime log maxBytes idx atts) = Ok imgs ->
  imgs = flat_map (fun a => option_to_list (classified_image detectMime a)) atts.
Proof.
  revert idx imgs. induction atts as [|a rest IH]; intros idx imgs H.
  - simpl in H. injection H as <-. reflexivity.
  - simpl in H. destruct (parse_step detectMime maxBytes idx a) as [[img ws]|e] eqn:Hs;
      [|discriminate].
    destruct (collect_images detectMime log maxBytes (S idx) rest) as [w r] eqn:E.
    simpl in H. destruct r as [imgs'|e]; [|discriminate].
    injection H as <-. simpl.
    rewrite (parse_step_image _ _ _ _ Hs).
    rewrite (IH (S idx) imgs'); [reflexivity|]. rewrite E. reflexivity.
Qed.

Lemma first_audio_skip (pre post : list ChatAttachment) (idx : nat) :
  (forall k x, nth_error pre k = Some x -> audio_step detectMime maxBytes (idx + k) x = Ok None) ->
  first_audio_loop detectMime maxBytes idx (pre ++ post)%list
  = first_audio_loop detectMime maxBytes (idx + length pre) post.
Proof.
  revert idx. induction pre as [|x pre IH]; intros idx Hpre.
  - simpl. rewrite Nat.add_0_r. reflexivity.
  - simpl. pose proof (Hpre 0 x eq_refl) as Hx. rewrite Nat.add_0_r in Hx. rewrite Hx.
    rewrite IH; [f_equal; lia|].
    intros k y Hk. replace (S idx + k) with (idx + S k) by lia. apply (Hpre (S k)). exact Hk.
Qed.

Lemma first_audio_some (atts : list ChatAttachment) (idx : nat) (r : FirstAudioResult) :
  first_audio_loop detectMime maxBytes idx atts = Ok (Some r) ->
  exists k a, audio_step detectMime maxBytes k a = Ok (Some r).
Proof.
  revert idx. induction atts as [|a rest IH]; intros idx H; simpl in H; [discriminate|].
  destruct (audio_step detectMime maxBytes idx a) as [[x|]|e] eqn:Hs; [| |discriminate].
  - injection H as ->. exists idx, a. exact Hs.
  - exact (IH _ H).
Qed.

Lemma audio_step_some (idx : nat) (a : ChatAttachment) (r : FirstAudioResult) :
  audio_step detectMime maxBytes idx a = Ok (Some r) ->
  exists content, decodeAndValidateAudioAttachment detectMime a content idx maxBytes = Ok (Some r).
Proof.
  unfold audio_step. destruct (att_content a) as [content|]; [|discriminate].
  intros H. exists content.
  destruct (isAudioMime (normalizeMime (Some (mime_or_empty a)))).
  - destruct (decodeAndValidateAudioAttachment detectMime a content idx maxBytes)
      as [[x|]|e] eqn:Hd; [ | | discriminate H].
    + exact H.
    + destruct (isAudioMime _); [exact H | discriminate H].
  - destruct (isAudioMime _); [exact H | discriminate H].
Qed.

End Loops.

Lemma legacy_loop_throw (maxBytes : N) (pre : list ChatAttachment) (a : ChatAttachment)
    (post : list ChatAttachment) (idx : nat) (e : AttachmentError) :
  (forall k x, nth_error pre k = Some x -> exists v, legacy_step maxBytes (idx + k) x = Ok v) ->
  legacy_step maxBytes (idx + length pre) a = Throw e ->
  legacy_loop maxBytes idx (pre ++ a :: post)%list = Throw e.
Proof.
  revert idx. induction pre as [|x pre IH]; intros idx Hpre Ha.
  - simpl. rewrite Nat.add_0_r in Ha. rewrite Ha. reflexivity.
  - destruct (Hpre 0 x eq_refl) as [v Hx].
    rewrite Nat.add_0_r in Hx. simpl. rewrite Hx.
    rewrite IH; [reflexivity| |].
    + intros k y Hk. replace (S idx + k) with (idx + S k) by lia. apply (Hpre (S k)). exact Hk.
    + simpl in Ha. replace (S idx + length pre) with (idx + S (length pre)) by lia. exact Ha.
Qed.

Lemma string_app_assoc (a b c : string) : (a ++ b) ++ c = a ++ b ++ c.
Proof. induction a as [|x a IH]; simpl; [reflexivity | rewrite IH; reflexivity]. Qed.

Lemma normalizeMime_mime_or_empty (a : ChatAttachment) :
  normalizeMime (Some (mime_or_empty a)) = normalizeMime (att_mimeType a).
Proof. unfold mime_or_empty. destruct (att_mimeType a); reflexivity. Qed.

Lemma getFirst_cons (detectMime : Buffer -> option string) (maxBytes : N)
    (a : ChatAttachment) (rest : list ChatAttachment) :
  getFirstAudioAttachment detectMime (Some (a :: rest)) maxBytes
  = first_audio_loop detectMime maxBytes 0 (a :: rest).
Proof. reflexivity. Qed.

Lemma getFirst_app_cons (detectMime : Buffer -> option string) (maxBytes : N)
    (pre : list ChatAttachment) (a : ChatAttachment) (rest : list ChatAttachment) :
  getFirstAudioAttachment detectMime (Some (pre ++ a :: rest)%list) maxBytes
  = first_audio_loop detectMime maxBytes 0 (pre ++ a :: rest)%list.
Proof. destruct pre; reflexivity. Qed.

Lemma parse_outcome (detectMime : Buffer -> option string) (message : string)
    (l : list ChatAttachment) (maxBytes : N) (log : bool) :
  l <> [] ->
  snd (parseMessageWithAttachments detectMime message (Some l)
         (Some {| opt_maxBytes := Some maxBytes; opt_log := log |}))
  = match snd (collect_images detectMime log maxBytes 0 l) with
    | Ok images => Ok {| parsed_message := message; parsed_images := images |}
    | Throw e => Throw e
    end.
Proof.
  intros Hl. destruct l as [|y l]; [congruence|].
  unfold parseMessageWithAttachments. cbn -[collect_images].
  destruct (collect_images detectMime log maxBytes 0 (y :: l)) as [w r]. reflexivity.
Qed.

Lemma build_throw (message : string) (l : list ChatAttachment) (maxBytes : N)
    (e : AttachmentError) :
  l <> [] -> legacy_loop maxBytes 0 l = Throw e ->
  buildMessageWithAttachments message (Some l) (Some (Some maxBytes)) = Throw e.
Proof.
  intros Hl H. destruct l as [|y l]; [congruence|].
  unfold buildMessageWithAttachments. rewrite H. reflexivity.
Qed.

(* ------------------------------------------------------------------ *)
(** ** Claims *)

(** C1 (counterexample). The strict first-audio path does not fail on an
    attachment whose content is not a string: it skips it and, with nothing
    else in the list, returns null. *)
Lemma C1_audio_path_skips_non_string :
  getFirstAudioAttachment detectMimeSpec (Some [non_string_audio]) 5000000 = Ok None.
Proof. reflexivity. Qed.

(** C1 (amended). On the lenient multi-image path and on the legacy encoder,
    once the loop reaches an attachment whose content is not a string (every
    earlier attachment having been processed without error), the call throws
    "content must be base64 string" for that attachment and returns no
    result.  The strict first-audio path instead skips such an attachment
    and goes on with the next one. *)
Theorem C1_non_string_content (detectMime : Buffer -> option string) (maxBytes : N)
    (log : bool) (message : string) (pre : list ChatAttachment) (a : ChatAttachment)
    (post : list ChatAttachment) :
  att_content a = UNonString ->
  ((forall k x, nth_error pre k = Some x -> exists v, parse_step detectMime maxBytes k x = Ok v) ->
   snd (parseMessageWithAttachments detectMime message (Some (pre ++ a :: post)%list)
          (Some {| opt_maxBytes := Some maxBytes; opt_log := log |}))
   = Throw (ContentNotBase64String (attachment_label (length pre) a))) /\
  ((forall k x, nth_error pre k = Some x -> exists v, legacy_step maxBytes k x = Ok v) ->
   buildMessageWithAttachments message (Some (pre ++ a :: post)%list) (Some (Some maxBytes))
   = Throw (ContentNotBase64String (attachment_label (length pre) a))) /\
  (forall idx, first_audio_loop detectMime maxBytes idx (a :: post)
               = first_audio_loop detectMime maxBytes (S idx) post).
Proof.
  intros Hc. split; [|split].
  - intros Hpre.
    assert (Hs : parse_step detectMime maxBytes (0 + length pre) a
                 = Throw (ContentNotBase64String (attachment_label (length pre) a))).
    { unfold parse_step. rewrite Hc. reflexivity. }
    pose proof (collect_images_throw detectMime maxBytes log pre a post 0 _ Hpre Hs) as H.
    rewrite parse_outcome by (destruct pre; discriminate).
    rewrite H. reflexivity.
  - intros Hpre.
    assert (Hs : legacy_step maxBytes (0 + length pre) a
                 = Throw (ContentNotBase64String (attachment_label (length pre) a))).
    { unfold legacy_step. rewrite Hc. reflexivity. }
    pose proof (legacy_loop_throw maxBytes pre a post 0 _ Hpre Hs) as H.
    apply build_throw; [destruct pre; discriminate | exact H].
  - intros idx. simpl. unfold audio_step. rewrite Hc. reflexivity.
Qed.

Lemma C1_non_string_content_witness :
  snd (parseMessageWithAttachments detectMimeSpec "" (Some [non_string_audio])
         (Some {| opt_maxBytes := Some 100%N; opt_log := true |}))
  = Throw (ContentNotBase64String "attachment-1") /\
  buildMessageWithAttachments "" (Some [non_string_audio]) (Some (Some 100%N))
  = Throw (ContentNotBase64String "attachment-1") /\
  first_audio_loop detectMimeSpec 100 0 [non_string_audio] = first_audio_loop detectMimeSpec 100 1 [].
Proof.
  destruct (C1_non_string_content detectMimeSpec 100 true "" [] non_string_audio []
              eq_refl) as [H1 [H2 H3]].
  split; [|split].
  - apply H1. intros [|k] x Hk; simpl in Hk; discriminate.
  - apply H2. intros [|k] x Hk; simpl in Hk; discriminate.
  - apply H3.
Defined.

(** Why the sniffed-audio branch of [getFirstAudioAttachment] cannot select
    an attachment with a declared non-audio type: the type re-resolved by
    [decodeAndValidateAudioAttachment] is the declared one. *)
Lemma audio_step_declared_non_audio (detectMime : Buffer -> option string) (maxBytes : N)
    (idx : nat) (a : ChatAttachment) (p : string) (r : FirstAudioResult) :
  normalizeMime (att_mimeType a) = Some p -> isAudioMime (Some p) = false ->
  audio_step detectMime maxBytes idx a <> Ok (Some r).
Proof.
  intros Hp Ha. unfold audio_step.
  destruct (att_content a) as [content|]; [|discriminate].
  rewrite normalizeMime_mime_or_empty, Hp, Ha.
  destruct (isAudioMime (normalizeMime (sniffMimeFromBase64 detectMime content))); [|discriminate].
  unfold decodeAndValidateAudioAttachment. rewrite Hp. cbv beta iota zeta. rewrite Ha.
  cbn [negb]. split_ifs; discriminate.
Qed.

(** C2 (code bug). An attachment declared [application/octet-stream] whose
    content is valid base64 of 10 bytes (an ID3-tagged MP3) and sniffs as
    [audio/mpeg] is not selected by [getFirstAudioAttachment]: the call
    returns null. *)
Theorem C2_sniffed_audio_not_selected :
  normalizeMime (sniffMimeFromBase64 detectMimeSpec mp3_b64) = Some "audio/mpeg" /\
  has_illegal_b64 (normalizeBase64ForDecode mp3_b64) = false /\
  length (bufferFromBase64 (normalizeBase64ForDecode mp3_b64)) = 10 /\
  getFirstAudioAttachment detectMimeSpec (Some [octet_stream_mp3]) 5000000 = Ok None.
Proof. vm_compute. repeat split. Qed.

(** C3 (counterexample). A URL-safe, unpadded JPEG accepted by the lenient
    path is rejected by the legacy encoder as invalid base64. *)
Lemma C3_legacy_rejects_urlsafe_unpadded :
  snd (parseMessageWithAttachments detectMimeSpec "" (Some [jpeg_urlsafe_att]) None)
  = Ok {| parsed_message := "";
          parsed_images := [{| img_type := "image"; img_data := jpeg_b64;
                               img_mimeType := "image/jpeg" |}] |} /\
  buildMessageWithAttachments "" (Some [jpeg_urlsafe_att]) None
  = Throw (InvalidBase64Content "attachment-1").
Proof. split; vm_compute; reflexivity. Qed.

(** C3 (amended). The legacy encoder does not normalize: for an attachment
    with string content and a declared [image/] type it trims the content
    and throws "invalid base64 content" unless the trimmed text has a length
    that is a multiple of 4 and only characters of [A-Za-z0-9+/=].  When the
    trimmed text passes, it is exactly what the lenient normalizer yields,
    and both paths decode it the same way and apply the same size check. *)
Theorem C3_legacy_validation (detectMime : Buffer -> option string) (maxBytes : N)
    (idx : nat) (a : ChatAttachment) (content : string) :
  att_content a = UString content ->
  startsWith (mime_or_empty a) "image/" = true ->
  ((negb (String.length (trim content) mod 4 =? 0) || has_illegal_b64 (trim content)) = true ->
   legacy_step maxBytes idx a = Throw (InvalidBase64Content (attachment_label idx a))) /\
  ((negb (String.length (trim content) mod 4 =? 0) || has_illegal_b64 (trim content)) = false ->
   normalizeBase64ForDecode content = trim content /\
   (size_out_of_range (N.of_nat (length (bufferFromBase64 (trim content)))) maxBytes = true ->
    legacy_step maxBytes idx a
    = Throw (ExceedsSizeLimit (attachment_label idx a)
               (N.of_nat (length (bufferFromBase64 (trim content)))) maxBytes) /\
    parse_step detectMime maxBytes idx a
    = Throw (ExceedsSizeLimit (attachment_label idx a)
               (N.of_nat (length (bufferFromBase64 (trim content)))) maxBytes)) /\
   (size_out_of_range (N.of_nat (length (bufferFromBase64 (trim content)))) maxBytes = false ->
    (exists block, legacy_step maxBytes idx a = Ok block) /\
    (exists v, parse_step detectMime maxBytes idx a = Ok v))).
Proof.
  intros Hc Hm. split.
  - intros H. unfold legacy_step. rewrite Hc, Hm. cbv zeta. simpl negb at 1. rewrite H. reflexivity.
  - intros H. apply orb_false_iff in H as [Hl Hi].
    apply negb_false_iff, Nat.eqb_eq in Hl.
    pose proof (normalize_of_trimmed content Hi Hl) as Hn.
    split; [exact Hn|].
    assert (Hleg' : legacy_step maxBytes idx a =
              if size_out_of_range (N.of_nat (length (bufferFromBase64 (trim content)))) maxBytes
              then Throw (ExceedsSizeLimit (attachment_label idx a)
                     (N.of_nat (length (bufferFromBase64 (trim content)))) maxBytes)
              else Ok ("![" ++ ws_runs_to_underscore false (attachment_label idx a) ++ "](data:"
                       ++ mime_or_empty a ++ ";base64," ++ content ++ ")")).
    { unfold legacy_step. rewrite Hc, Hm. cbv zeta. simpl negb at 1.
      rewrite Hl, Hi. reflexivity. }
    unfold parse_step. rewrite Hc. cbv zeta. rewrite Hn, Hi.
    split; intros Hs; rewrite Hs in *; rewrite Hleg'.
    + split; reflexivity.
    + split; [eexists; reflexivity|].
      destruct (normalizeMime (sniffMimeFromBase64 detectMime (trim content)));
        [|destruct (normalizeMime (Some (mime_or_empty a)))];
        split_ifs; eexists; reflexivity.
Qed.

Lemma C3_legacy_validation_witness :
  normalizeBase64ForDecode jpeg_b64 = trim jpeg_b64 /\
  (exists block, legacy_step 100 0 (attachment_of (Some "image/jpeg") jpeg_b64) = Ok block).
Proof.
  destruct (C3_legacy_validation detectMimeSpec 100 0 (attachment_of (Some "image/jpeg") jpeg_b64)
              jpeg_b64 eq_refl eq_refl) as [_ H].
  destruct (H eq_refl) as [Hn [_ Hok]].
  split; [exact Hn|].
  exact (proj1 (Hok eq_refl)).
Defined.

Lemma size_in_range (n m : N) : (1 <= n <= m)%N -> size_out_of_range n m = false.
Proof.
  unfold size_out_of_range. intros H.
  destruct (N.eqb_spec n 0), (N.ltb_spec m n); simpl; lia.
Qed.

Lemma size_out_range (n m : N) : (n = 0 \/ m < n)%N -> size_out_of_range n m = true.
Proof.
  unfold size_out_of_range. intros H.
  destruct (N.eqb_spec n 0), (N.ltb_spec m n); simpl; lia.
Qed.

Lemma size_message_mentions (l : string) (n m : N) :
  substring_of (N_to_string n) (error_message (ExceedsSizeLimit l n m)) /\
  substring_of (N_to_string m) (error_message (ExceedsSizeLimit l n m)).
Proof.
  unfold error_message. split.
  - exists ("attachment " ++ l ++ ": exceeds size limit ("), (" > " ++ N_to_string m ++ " bytes)").
    rewrite !string_app_assoc. reflexivity.
  - exists ("attachment " ++ l ++ ": exceeds size limit (" ++ N_to_string n ++ " > "), " bytes)".
    rewrite !string_app_assoc. reflexivity.
Qed.

(** The value returned by [decodeAndValidateAudioAttachment] once the
    content has passed the alphabet and size checks. *)
Lemma decode_valid (detectMime : Buffer -> option string) (maxBytes : N) (idx : nat)
    (a : ChatAttachment) (content : string) :
  has_illegal_b64 (normalizeBase64ForDecode content) = false ->
  size_out_of_range (N.of_nat (length (bufferFromBase64 (normalizeBase64ForDecode content)))) maxBytes
  = false ->
  decodeAndValidateAudioAttachment detectMime a content idx maxBytes
  = let buf := bufferFromBase64 (normalizeBase64ForDecode content) in
    let mimeType :=
      match normalizeMime (att_mimeType a) with
      | Some m => m
      | None => match detectMime buf with Some m => m | None => "audio/octet-stream" end
      end in
    if negb (isAudioMime (Some mimeType)) then Ok None
    else Ok (Some {| buffer := buf; audio_mimeType := mimeType |}).
Proof.
  intros Hi Hs. unfold decodeAndValidateAudioAttachment. cbv zeta. rewrite Hi, Hs. reflexivity.
Qed.

(** C4. An attachment declared audio whose bytes sniff as [video/mp4] is
    audio for both paths: the lenient path drops it from the images without
    any warning, and the first-audio path, reaching it after attachments
    that do not qualify, returns it with its declared type. *)
Theorem C4_m4a_container_override (detectMime : Buffer -> option string) (maxBytes : N)
    (a : ChatAttachment) (content p : string) (pre rest : list ChatAttachment) :
  att_content a = UString content ->
  has_illegal_b64 (normalizeBase64ForDecode content) = false ->
  size_out_of_range (N.of_nat (length (bufferFromBase64 (normalizeBase64ForDecode content)))) maxBytes
  = false ->
  normalizeMime (att_mimeType a) = Some p ->
  isAudioMime (Some p) = true ->
  normalizeMime (sniffMimeFromBase64 detectMime content) = Some "video/mp4" ->
  parse_step detectMime maxBytes (length pre) a = Ok (None, []) /\
  ((forall k x, nth_error pre k = Some x -> audio_step detectMime maxBytes k x = Ok None) ->
   getFirstAudioAttachment detectMime (Some (pre ++ a :: rest)%list) maxBytes
   = Ok (Some {| buffer := bufferFromBase64 (normalizeBase64ForDecode content);
                 audio_mimeType := p |})).
Proof.
  intros Hc Hi Hs Hp Hap Hsn. split.
  - unfold parse_step. rewrite Hc. cbv zeta. rewrite Hi, Hs.
    rewrite (sniff_normalized detectMime content Hi), Hsn.
    rewrite normalizeMime_mime_or_empty, Hp, Hap. reflexivity.
  - intros Hpre. rewrite getFirst_app_cons.
    rewrite (first_audio_skip detectMime maxBytes pre (a :: rest) 0 Hpre).
    simpl first_audio_loop. unfold audio_step. rewrite Hc.
    rewrite normalizeMime_mime_or_empty, Hp, Hap.
    rewrite (decode_valid detectMime maxBytes _ a content Hi Hs). cbv zeta.
    rewrite Hp, Hap. reflexivity.
Qed.

Lemma C4_m4a_container_override_witness :
  parse_step detectMimeSpec 100 0 (attachment_of (Some "audio/m4a") m4a_b64) = Ok (None, []) /\
  getFirstAudioAttachment detectMimeSpec (Some [attachment_of (Some "audio/m4a") m4a_b64]) 100
  = Ok (Some {| buffer := bufferFromBase64 (normalizeBase64ForDecode m4a_b64);
                audio_mimeType := "audio/m4a" |}).
Proof.
  destruct (C4_m4a_container_override detectMimeSpec 100 (attachment_of (Some "audio/m4a") m4a_b64)
              m4a_b64 "audio/m4a" [] [] eq_refl ltac:(vm_compute; reflexivity)
              ltac:(vm_compute; reflexivity) eq_refl eq_refl ltac:(vm_compute; reflexivity))
    as [H1 H2].
  split; [exact H1|].
  apply H2. intros [|k] x Hk; simpl in Hk; discriminate.
Defined.

(** C5. On the lenient path, a valid attachment whose declared and sniffed
    types are different image types is kept with the sniffed type; a warning
    naming the attachment and both types goes to the sink, and the loop goes
    on with the next attachment. *)
Theorem C5_mime_mismatch_sniffed_wins (detectMime : Buffer -> option string) (maxBytes : N)
    (idx : nat) (a : ChatAttachment) (content p s : string) (rest : list ChatAttachment) :
  att_content a = UString content ->
  has_illegal_b64 (normalizeBase64ForDecode content) = false ->
  size_out_of_range (N.of_nat (length (bufferFromBase64 (normalizeBase64ForDecode content)))) maxBytes
  = false ->
  normalizeMime (att_mimeType a) = Some p ->
  isImageMime (Some p) = true ->
  normalizeMime (sniffMimeFromBase64 detectMime content) = Some s ->
  isImageMime (Some s) = true ->
  s <> p ->
  let w := "attachment " ++ attachment_label idx a ++ ": mime mismatch (" ++ p ++ " -> " ++ s
           ++ "), using sniffed" in
  let img := {| img_type := "image"; img_data := normalizeBase64ForDecode content;
                img_mimeType := s |} in
  parse_step detectMime maxBytes idx a = Ok (Some img, [w]) /\
  collect_images detectMime true maxBytes idx (a :: rest)
  = (w :: fst (collect_images detectMime true maxBytes (S idx) rest),
     match snd (collect_images detectMime true maxBytes (S idx) rest) with
     | Ok imgs => Ok (img :: imgs)
     | Throw e => Throw e
     end) /\
  substring_of (attachment_label idx a) w /\ substring_of p w /\ substring_of s w.
Proof.
  intros Hc Hi Hs Hp Hpi Hsn Hsi Hne w img.
  assert (Hstep : parse_step detectMime maxBytes idx a = Ok (Some img, [w])).
  { unfold parse_step. rewrite Hc. cbv zeta. rewrite Hi, Hs.
    rewrite (sniff_normalized detectMime content Hi), Hsn, normalizeMime_mime_or_empty, Hp.
    cbv beta iota. rewrite Hsi. cbn [negb].
    rewrite (proj2 (String.eqb_neq s p) Hne). reflexivity. }
  split; [exact Hstep|]. split; [|split; [|split]].
  - cbn [collect_images]. rewrite Hstep.
    destruct (collect_images detectMime true maxBytes (S idx) rest) as [w' r].
    reflexivity.
  - exists "attachment ", (": mime mismatch (" ++ p ++ " -> " ++ s ++ "), using sniffed").
    reflexivity.
  - exists ("attachment " ++ attachment_label idx a ++ ": mime mismatch ("),
      (" -> " ++ s ++ "), using sniffed").
    unfold w. rewrite !string_app_assoc. reflexivity.
  - exists ("attachment " ++ attachment_label idx a ++ ": mime mismatch (" ++ p ++ " -> "),
      "), using sniffed".
    unfold w. rewrite !string_app_assoc. reflexivity.
Qed.

Lemma C5_mime_mismatch_sniffed_wins_witness :
  parse_step detectMimeSpec 100 0 (attachment_of (Some "image/png") jpeg_b64)
  = Ok (Some {| img_type := "image"; img_data := jpeg_b64; img_mimeType := "image/jpeg" |},
        ["attachment attachment-1: mime mismatch (image/png -> image/jpeg), using sniffed"]).
Proof.
  destruct (C5_mime_mismatch_sniffed_wins detectMimeSpec 100 0
              (attachment_of (Some "image/png") jpeg_b64) jpeg_b64 "image/png" "image/jpeg" []
              eq_refl ltac:(vm_compute; reflexivity) ltac:(vm_compute; reflexivity) eq_refl eq_refl
              ltac:(vm_compute; reflexivity) eq_refl ltac:(discriminate)) as [H _].
  exact H.
Defined.

(** C6 (counterexample). On the strict audio path an attachment that is not
    an audio candidate is skipped without any size check (here an empty
    payload declared [image/png]); and with a ceiling of 0 a payload of
    exactly 0 bytes is rejected by the lenient path. *)
Lemma C6_size_check_not_uniform :
  getFirstAudioAttachment detectMimeSpec (Some [attachment_of (Some "image/png") ""]) 10 = Ok None /\
  snd (parseMessageWithAttachments detectMimeSpec "" (Some [attachment_of (Some "image/png") ""])
         (Some {| opt_maxBytes := Some 0%N; opt_log := false |}))
  = Throw (ExceedsSizeLimit "attachment-1" 0 0).
Proof. split; vm_compute; reflexivity. Qed.

(** C6 (amended). For a ceiling [maxBytes] and an attachment whose string
    content passes the alphabet check, decoding to [n] bytes: if
    [1 <= n <= maxBytes] (so [n = maxBytes] when [maxBytes >= 1]) the size
    check passes on the lenient path and in the validator of the audio path;
    if [n = 0] or [n > maxBytes] both throw "exceeds size limit" with a
    message citing [n] and [maxBytes], and the first-audio path throws it for
    the attachment when it is an audio candidate (declared or sniffed type
    audio).  An attachment that is not an audio candidate is skipped by the
    first-audio scan without any size check, whatever its size; and with a
    ceiling of 0 every such payload makes the lenient path throw. *)
Theorem C6_size_check (detectMime : Buffer -> option string) (maxBytes : N) (idx : nat)
    (a : ChatAttachment) (content : string) (n : N) :
  att_content a = UString content ->
  has_illegal_b64 (normalizeBase64ForDecode content) = false ->
  N.of_nat (length (bufferFromBase64 (normalizeBase64ForDecode content))) = n ->
  ((1 <= n <= maxBytes)%N ->
   (exists v, parse_step detectMime maxBytes idx a = Ok v) /\
   (exists v, decodeAndValidateAudioAttachment detectMime a content idx maxBytes = Ok v)) /\
  ((n = 0 \/ maxBytes < n)%N ->
   parse_step detectMime maxBytes idx a
   = Throw (ExceedsSizeLimit (attachment_label idx a) n maxBytes) /\
   decodeAndValidateAudioAttachment detectMime a content idx maxBytes
   = Throw (ExceedsSizeLimit (attachment_label idx a) n maxBytes) /\
   ((isAudioMime (normalizeMime (att_mimeType a))
     || isAudioMime (normalizeMime (sniffMimeFromBase64 detectMime content))) = true ->
    audio_step detectMime maxBytes idx a
    = Throw (ExceedsSizeLimit (attachment_label idx a) n maxBytes)) /\
   substring_of (N_to_string n) (error_message (ExceedsSizeLimit (attachment_label idx a) n maxBytes)) /\
   substring_of (N_to_string maxBytes)
     (error_message (ExceedsSizeLimit (attachment_label idx a) n maxBytes))) /\
  ((isAudioMime (normalizeMime (att_mimeType a))
    || isAudioMime (normalizeMime (sniffMimeFromBase64 detectMime content))) = false ->
   audio_step detectMime maxBytes idx a = Ok None) /\
  (maxBytes = 0%N ->
   parse_step detectMime maxBytes idx a = Throw (ExceedsSizeLimit (attachment_label idx a) n 0)).
Proof.
  intros Hc Hi Hn.
  assert (Hout : (n = 0 \/ maxBytes < n)%N ->
                 parse_step detectMime maxBytes idx a
                 = Throw (ExceedsSizeLimit (attachment_label idx a) n maxBytes)).
  { intros Hr. pose proof (size_out_range n maxBytes Hr) as Hs. rewrite <- Hn in Hs.
    unfold parse_step. rewrite Hc. cbv zeta. rewrite Hi, Hs, Hn. reflexivity. }
  split; [|split; [|split]].
  3:{ intros Hnc. apply orb_false_iff in Hnc as [H1 H2].
      unfold audio_step. rewrite Hc, normalizeMime_mime_or_empty, H1. simpl. rewrite H2. reflexivity. }
  3:{ intros H0. subst maxBytes. apply Hout. lia. }
  - intros Hr. pose proof (size_in_range n maxBytes Hr) as Hs. rewrite <- Hn in Hs.
    split.
    + unfold parse_step. rewrite Hc. cbv zeta. rewrite Hi, Hs.
      destruct (normalizeMime (sniffMimeFromBase64 detectMime (normalizeBase64ForDecode content)));
        [|destruct (normalizeMime (Some (mime_or_empty a)))];
        split_ifs; eexists; reflexivity.
    + rewrite (decode_valid detectMime maxBytes idx a content Hi Hs). cbv zeta.
      split_ifs; eexists; reflexivity.
  - intros Hr. pose proof (size_out_range n maxBytes Hr) as Hs. rewrite <- Hn in Hs.
    assert (Hd : decodeAndValidateAudioAttachment detectMime a content idx maxBytes
                 = Throw (ExceedsSizeLimit (attachment_label idx a) n maxBytes)).
    { unfold decodeAndValidateAudioAttachment. cbv zeta. rewrite Hi, Hs, Hn. reflexivity. }
    split; [|split; [exact Hd|split; [|exact (size_message_mentions _ n maxBytes)]]].
    + exact (Hout Hr).
    + intros Hcand. unfold audio_step. rewrite Hc, normalizeMime_mime_or_empty.
      destruct (isAudioMime (normalizeMime (att_mimeType a))).
      * rewrite Hd. reflexivity.
      * simpl in Hcand. rewrite Hcand. exact Hd.
Qed.

Lemma C6_size_check_witness :
  (exists v, parse_step detectMimeSpec 4 0 (attachment_of (Some "image/jpeg") jpeg_b64) = Ok v) /\
  parse_step detectMimeSpec 3 0 (attachment_of (Some "image/jpeg") jpeg_b64)
  = Throw (ExceedsSizeLimit "attachment-1" 4 3) /\
  audio_step detectMimeSpec 3 0 png_att = Ok None /\
  parse_step detectMimeSpec 0 0 png_att = Throw (ExceedsSizeLimit "attachment-1" 8 0).
Proof.
  split; [|split; [|split]].
  - apply (proj1 (C6_size_check detectMimeSpec 4 0 (attachment_of (Some "image/jpeg") jpeg_b64)
                    jpeg_b64 4 eq_refl ltac:(vm_compute; reflexivity) ltac:(vm_compute; reflexivity))).
    lia.
  - apply (proj1 (proj2 (C6_size_check detectMimeSpec 3 0 (attachment_of (Some "image/jpeg") jpeg_b64)
                    jpeg_b64 4 eq_refl ltac:(vm_compute; reflexivity) ltac:(vm_compute; reflexivity)))).
    lia.
  - apply (proj1 (proj2 (proj2 (C6_size_check detectMimeSpec 3 0 png_att png_b64 8 eq_refl
                    ltac:(vm_compute; reflexivity) ltac:(vm_compute; reflexivity))))).
    vm_compute. reflexivity.
  - apply (proj2 (proj2 (proj2 (C6_size_check detectMimeSpec 0 0 png_att png_b64 8 eq_refl
                    ltac:(vm_compute; reflexivity) ltac:(vm_compute; reflexivity))))).
    reflexivity.
Defined.

(** C7. [getFirstAudioAttachment] returns null for an absent or empty list;
    it returns the result of the first attachment (by index) that yields
    one, whatever follows it; and it returns null when every attachment is
    passed over. *)
Theorem C7_first_by_index (detectMime : Buffer -> option string) (maxBytes : N) :
  getFirstAudioAttachment detectMime None maxBytes = Ok None /\
  getFirstAudioAttachment detectMime (Some []) maxBytes = Ok None /\
  (forall pre a post r,
     (forall k x, nth_error pre k = Some x -> audio_step detectMime maxBytes k x = Ok None) ->
     audio_step detectMime maxBytes (length pre) a = Ok (Some r) ->
     getFirstAudioAttachment detectMime (Some (pre ++ a :: post)%list) maxBytes = Ok (Some r)) /\
  (forall atts,
     (forall k x, nth_error atts k = Some x -> audio_step detectMime maxBytes k x = Ok None) ->
     getFirstAudioAttachment detectMime (Some atts) maxBytes = Ok None).
Proof.
  split; [reflexivity|]. split; [reflexivity|]. split.
  - intros pre a post r Hpre Ha.
    rewrite getFirst_app_cons, (first_audio_skip detectMime maxBytes pre (a :: post) 0 Hpre).
    simpl first_audio_loop. rewrite Ha. reflexivity.
  - intros atts Hall. destruct atts as [|x l]; [reflexivity|].
    rewrite getFirst_cons.
    pose proof (first_audio_skip detectMime maxBytes (x :: l) [] 0 Hall) as H.
    rewrite app_nil_r in H. rewrite H. reflexivity.
Qed.

Lemma C7_first_by_index_witness :
  getFirstAudioAttachment detectMimeSpec
    (Some [attachment_of (Some "image/png") png_b64;
           attachment_of (Some "audio/mpeg") mp3_b64;
           attachment_of (Some "audio/ogg") ogg_b64]) 100
  = Ok (Some {| buffer := bufferFromBase64 mp3_b64; audio_mimeType := "audio/mpeg" |}).
Proof.
  apply (proj1 (proj2 (proj2 (C7_first_by_index detectMimeSpec 100)))
           [attachment_of (Some "image/png") png_b64]
           (attachment_of (Some "audio/mpeg") mp3_b64)
           [attachment_of (Some "audio/ogg") ogg_b64]).
  - intros [|[|k]] x Hk; simpl in Hk; try discriminate.
    injection Hk as <-. vm_compute. reflexivity.
  - vm_compute. reflexivity.
Defined.

(** C8. When the lenient path returns, the message is passed through and
    the image list holds, in input order, one record for each attachment
    classified as image and nothing else. *)
Theorem C8_images_in_input_order (detectMime : Buffer -> option string) (message : string)
    (atts : option (list ChatAttachment)) (opts : option ParseOpts) (warns : list string)
    (r : ParsedMessageWithImages) :
  parseMessageWithAttachments detectMime message atts opts = (warns, Ok r) ->
  parsed_message r = message /\
  parsed_images r = flat_map (fun a => option_to_list (classified_image detectMime a))
                      (match atts with Some l => l | None => [] end).
Proof.
  unfold parseMessageWithAttachments.
  destruct atts as [[|a l]|]; cbn -[collect_images].
  - intros H. injection H as _ <-. split; reflexivity.
  - destruct (collect_images detectMime _ _ 0 (a :: l)) as [w res] eqn:E.
    destruct res as [images|e]; intros H; [|discriminate].
    injection H as _ <-. split; [reflexivity|].
    change (images = flat_map (fun a => option_to_list (classified_image detectMime a)) (a :: l)).
    eapply collect_images_ok. rewrite E. reflexivity.
  - intros H. injection H as _ <-. split; reflexivity.
Qed.

Lemma C8_images_in_input_order_witness :
  parsed_message {| parsed_message := "m";
                    parsed_images := [{| img_type := "image"; img_data := png_b64;
                                         img_mimeType := "image/png" |};
                                      {| img_type := "image"; img_data := jpeg_b64;
                                         img_mimeType := "image/jpeg" |}] |} = "m" /\
  [{| img_type := "image"; img_data := png_b64; img_mimeType := "image/png" |};
   {| img_type := "image"; img_data := jpeg_b64; img_mimeType := "image/jpeg" |}]
  = flat_map (fun a => option_to_list (classified_image detectMimeSpec a))
      [attachment_of (Some "audio/mpeg") mp3_b64; attachment_of (Some "image/png") png_b64;
       attachment_of (Some "application/pdf") pdf_b64; attachment_of (Some "image/jpeg") jpeg_b64].
Proof.
  apply (C8_images_in_input_order detectMimeSpec "m"
           (Some [attachment_of (Some "audio/mpeg") mp3_b64; attachment_of (Some "image/png") png_b64;
                  attachment_of (Some "application/pdf") pdf_b64;
                  attachment_of (Some "image/jpeg") jpeg_b64])
           (Some {| opt_maxBytes := None; opt_log := true |})
           ["attachment attachment-3: detected non-image (application/pdf), dropping"]).
  vm_compute. reflexivity.
Defined.

(** C9. The normalizer returns its input unchanged when the input is in the
    base64 alphabet (standard alphabet and [=]) with a length that is a
    multiple of 4, which covers every canonical base64 text; in particular
    normalizing an accepted normalized text again changes nothing. *)
Theorem C9_normalize_canonical (s : string) :
  has_illegal_b64 s = false -> String.length s mod 4 = 0 -> normalizeBase64ForDecode s = s.
Proof.
  intros Hi Hl.
  rewrite (normalize_of_trimmed s); rewrite (trim_b64 s Hi); [reflexivity | exact Hi | exact Hl].
Qed.

Lemma C9_normalize_canonical_witness : normalizeBase64ForDecode png_b64 = png_b64.
Proof. apply C9_normalize_canonical; vm_compute; reflexivity. Defined.

Lemma fc_before_semicolon (s : string) :
  forall_chars (fun c => negb (ascii_eqb c ";")) (before_semicolon s) = true.
Proof.
  induction s as [|c r IH]; simpl; [reflexivity|].
  destruct (ascii_eqb c ";") eqn:E; simpl; [reflexivity|]. rewrite E. exact IH.
Qed.

Lemma fc_trim_start (p : ascii -> bool) (s : string) :
  forall_chars p s = true -> forall_chars p (trim_start s) = true.
Proof.
  induction s as [|c r IH]; simpl; [reflexivity|].
  intros H. apply andb_prop in H as [Hc Hr].
  destruct (is_ws c); [exact (IH Hr)|]. simpl. rewrite Hc. exact Hr.
Qed.

Lemma fc_trim_end (p : ascii -> bool) (s : string) :
  forall_chars p s = true -> forall_chars p (trim_end s) = true.
Proof.
  induction s as [|c r IH]; simpl; [reflexivity|].
  intros H. apply andb_prop in H as [Hc Hr].
  specialize (IH Hr).
  destruct (trim_end r) as [|c' r'].
  - destruct (is_ws c); simpl; [reflexivity|]. rewrite Hc. reflexivity.
  - simpl in IH |- *. rewrite Hc. exact IH.
Qed.

Lemma lower_char_ok (c : ascii) :
  negb (ascii_eqb c ";") = true -> mime_char_ok (lower_ascii c) = true.
Proof. ascii_cases c; vm_compute; congruence. Qed.

Lemma fc_toLowerCase (s : string) :
  forall_chars (fun c => negb (ascii_eqb c ";")) s = true -> mime_well_formed (toLowerCase s) = true.
Proof.
  unfold mime_well_formed.
  induction s as [|c r IH]; simpl; [reflexivity|].
  intros H. apply andb_prop in H as [Hc Hr].
  rewrite (lower_char_ok c Hc). exact (IH Hr).
Qed.

Lemma normalizeMime_well_formed (mime : option string) (m : string) :
  normalizeMime mime = Some m -> mime_well_formed m = true.
Proof.
  unfold normalizeMime. destruct mime as [[|c r]|]; try discriminate.
  set (t := toLowerCase (trim (before_semicolon (String c r)))).
  assert (Ht : mime_well_formed t = true).
  { apply fc_toLowerCase. unfold trim.
    apply fc_trim_end, fc_trim_start, fc_before_semicolon. }
  destruct t as [|c' r']; intros H; [discriminate|].
  injection H as <-. exact Ht.
Qed.

Lemma size_range_of_false (n m : N) : size_out_of_range n m = false -> (1 <= n <= m)%N.
Proof.
  unfold size_out_of_range. intros H. apply orb_false_iff in H as [H0 H1].
  apply N.eqb_neq in H0. apply N.ltb_ge in H1. lia.
Qed.

(** C10. Under the detector contract of the data model (a detected type is
    lowercase and has no parameter), every result of
    [getFirstAudioAttachment] has a buffer of 1 to [maxBytes] bytes and a
    lowercase, parameter-free MIME type starting with [audio/], the
    fallback ["audio/octet-stream"] included. *)
Theorem C10_audio_result_well_formed (detectMime : Buffer -> option string) :
  (forall b m, detectMime b = Some m -> mime_well_formed m = true) ->
  forall atts maxBytes r,
  getFirstAudioAttachment detectMime atts maxBytes = Ok (Some r) ->
  (1 <= N.of_nat (length (buffer r)) <= maxBytes)%N /\
  mime_well_formed (audio_mimeType r) = true /\
  startsWith (audio_mimeType r) "audio/" = true.
Proof.
  intros Hdet atts maxBytes r H.
  destruct atts as [[|x l]|]; [discriminate| |discriminate].
  rewrite getFirst_cons in H.
  destruct (first_audio_some detectMime maxBytes _ _ _ H) as [k [a Ha]].
  destruct (audio_step_some detectMime maxBytes _ _ _ Ha) as [content Hd].
  unfold decodeAndValidateAudioAttachment in Hd. cbv zeta in Hd.
  destruct (has_illegal_b64 _); [discriminate|].
  destruct (size_out_of_range _ _) eqn:Hs; [discriminate|].
  apply size_range_of_false in Hs.
  assert (Hwf : forall mt, (normalizeMime (att_mimeType a) = Some mt \/
                            (normalizeMime (att_mimeType a) = None /\
                             detectMime (bufferFromBase64 (normalizeBase64ForDecode content)) = Some mt) \/
                            mt = "audio/octet-stream") -> mime_well_formed mt = true).
  { intros mt [Hm | [[_ Hm] | ->]]; [exact (normalizeMime_well_formed _ _ Hm) | exact (Hdet _ _ Hm) |
                                 reflexivity]. }
  destruct (normalizeMime (att_mimeType a)) as [m|] eqn:Hn;
    [|destruct (detectMime (bufferFromBase64 (normalizeBase64ForDecode content))) as [m|] eqn:Hdm];
    unfold isAudioMime in Hd;
    [ destruct (startsWith m "audio/") eqn:Ha'
    | destruct (startsWith m "audio/") eqn:Ha'
    | destruct (startsWith "audio/octet-stream" "audio/") eqn:Ha' ];
    simpl in Hd; try discriminate;
    injection Hd as <-; simpl; (split; [exact Hs|]); (split; [|exact Ha']); apply Hwf; auto.
Qed.

Lemma C10_audio_result_well_formed_witness :
  (1 <= N.of_nat (length (bufferFromBase64 mp3_b64)) <= 100)%N /\
  mime_well_formed "audio/mpeg" = true /\ startsWith "audio/mpeg" "audio/" = true.
Proof.
  apply (C10_audio_result_well_formed detectMimeSpec
           ltac:(intros b m Hm; unfold detectMimeSpec in Hm;
                 split_ifs_in Hm; try discriminate; injection Hm as <-; vm_compute; reflexivity)
           (Some [attachment_of None mp3_b64]) 100
           {| buffer := bufferFromBase64 mp3_b64; audio_mimeType := "audio/mpeg" |}).
  vm_compute. reflexivity.
Defined.

(* ------------------------------------------------------------------ *)
(** ** Further properties of the code *)

(** X1. The base64 normalizer always returns a text whose length is a multiple of 4. *)
Theorem normalize_length_multiple_of_4 (content : string) :
  String.length (normalizeBase64ForDecode content) mod 4 = 0.
Proof. apply normalize_length_mod4. Qed.

Lemma fc_app (p : ascii -> bool) (s1 s2 : string) :
  forall_chars p (s1 ++ s2) = forall_chars p s1 && forall_chars p s2.
Proof. induction s1 as [|c r IH]; simpl; [reflexivity|]. rewrite IH. apply andb_assoc. Qed.

Lemma fc_repeat (p : ascii -> bool) (c : ascii) (n : nat) :
  p c = true -> forall_chars p (repeat_char c n) = true.
Proof. intros H. induction n as [|n IH]; simpl; [reflexivity|]. rewrite H, IH. reflexivity. Qed.

Lemma fc_replace_dash (s : string) :
  forall_chars (fun c => negb (ascii_eqb c "-")) (replace_all "-" "+" s) = true.
Proof.
  induction s as [|c r IH]; simpl; [reflexivity|]. rewrite IH.
  destruct (ascii_eqb c "-") eqn:E; [reflexivity|]. rewrite E. reflexivity.
Qed.

Lemma fc_replace_underscore (s : string) :
  forall_chars (fun c => negb (ascii_eqb c "-")) s = true ->
  forall_chars no_urlsafe_char (replace_all "_" "/" s) = true.
Proof.
  induction s as [|c r IH]; simpl; [reflexivity|].
  intros H. apply andb_prop in H as [Hc Hr]. rewrite (IH Hr).
  destruct (ascii_eqb c "_") eqn:E; [reflexivity|].
  unfold no_urlsafe_char. rewrite Hc, E. reflexivity.
Qed.

(** X2. The base64 normalizer never returns a text containing [-] or [_]: the URL-safe letters are always mapped to [+] and [/]. *)
Theorem normalize_no_urlsafe_chars (content : string) :
  forall_chars no_urlsafe_char (normalizeBase64ForDecode content) = true.
Proof.
  unfold normalizeBase64ForDecode.
  pose proof (fc_replace_underscore _ (fc_replace_dash (trim (stripDataUrlPrefix content)))) as H.
  destruct (_ =? 0); [exact H|].
  rewrite fc_app, H. apply fc_repeat. reflexivity.
Qed.

Lemma trim_end_app_fixed (s1 s2 : string) :
  s2 <> EmptyString -> trim_end s2 = s2 -> trim_end (s1 ++ s2) = s1 ++ s2.
Proof.
  intros Hne H. induction s1 as [|c r IH]; simpl; [exact H|].
  rewrite IH. destruct (r ++ s2) eqn:E; [|reflexivity].
  destruct r; simpl in E; [congruence | discriminate].
Qed.

Lemma trim_start_idem (s : string) : trim_start (trim_start s) = trim_start s.
Proof.
  induction s as [|c r IH]; simpl; [reflexivity|].
  destruct (is_ws c) eqn:E; [exact IH|]. simpl. rewrite E. reflexivity.
Qed.

Lemma trim_end_cons (c : ascii) (r : string) :
  trim_end r <> EmptyString -> trim_end (String c r) = String c (trim_end r).
Proof. simpl. destruct (trim_end r); congruence. Qed.

Lemma trim_end_idem (s : string) : trim_end (trim_end s) = trim_end s.
Proof.
  induction s as [|c r IH]; simpl; [reflexivity|].
  destruct (trim_end r) as [|c' r'] eqn:E.
  - destruct (is_ws c) eqn:W; simpl; [reflexivity|]. rewrite W. reflexivity.
  - rewrite <- E in IH |- *. rewrite trim_end_cons, IH; [reflexivity|]. rewrite IH, E. discriminate.
Qed.

Lemma trim_end_head (c : ascii) (r : string) :
  is_ws c = false -> exists r', trim_end (String c r) = String c r'.
Proof.
  intros W. simpl. destruct (trim_end r); [rewrite W|]; eexists; reflexivity.
Qed.

Lemma trim_start_head (s : string) :
  trim_start s = EmptyString \/ exists c r, trim_start s = String c r /\ is_ws c = false.
Proof.
  induction s as [|c r IH]; simpl; [left; reflexivity|].
  destruct (is_ws c) eqn:W; [exact IH|]. right. exists c, r. split; [reflexivity|exact W].
Qed.

Lemma trim_start_nonws (c : ascii) (r : string) :
  is_ws c = false -> trim_start (String c r) = String c r.
Proof. intros W. simpl. rewrite W. reflexivity. Qed.

Lemma trim_idem (s : string) : trim (trim s) = trim s.
Proof.
  unfold trim. destruct (trim_start_head s) as [E | [c [r [E W]]]]; rewrite E; [reflexivity|].
  destruct (trim_end_head c r W) as [r' E']. rewrite E'. simpl. rewrite W.
  rewrite <- E'. apply trim_end_idem.
Qed.

Lemma substring_app_right (p r : string) :
  substring (String.length p) (String.length r) (p ++ r) = r.
Proof.
  induction p as [|c p IH]; simpl.
  - induction r as [|c r IH]; simpl; [reflexivity|]. rewrite IH. reflexivity.
  - exact IH.
Qed.

Lemma split_semicolon_app (mt x : string) :
  forall_chars (fun c => negb (ascii_eqb c ";")) mt = true ->
  split_semicolon (mt ++ String ";" x) = (mt, String ";" x).
Proof.
  induction mt as [|c r IH]; simpl; [reflexivity|].
  intros H. apply andb_prop in H as [Hc Hr].
  apply negb_true_iff in Hc. rewrite Hc, (IH Hr). reflexivity.
Qed.

Lemma payload_char_facts (c : ascii) :
  is_payload_char c = true ->
  is_ws c = false /\ negb ((nat_of_ascii c =? 10) || (nat_of_ascii c =? 13)) = true.
Proof. ascii_cases c; vm_compute; try discriminate; intros _; split; reflexivity. Qed.

Lemma payload_no_line_terminator (c : string) :
  forall_chars is_payload_char c = true -> no_line_terminator c = true.
Proof.
  induction c as [|x r IH]; simpl; [reflexivity|].
  intros H. apply andb_prop in H as [Hx Hr]. rewrite (IH Hr), andb_true_r.
  exact (proj2 (payload_char_facts x Hx)).
Qed.

Lemma trim_start_payload (s : string) : forall_chars is_payload_char s = true -> trim_start s = s.
Proof.
  destruct s as [|c r]; [reflexivity|]. simpl. intros H. apply andb_prop in H as [Hc _].
  rewrite (proj1 (payload_char_facts c Hc)). reflexivity.
Qed.

Lemma trim_end_payload (s : string) : forall_chars is_payload_char s = true -> trim_end s = s.
Proof.
  induction s as [|c r IH]; [reflexivity|].
  simpl. intros H. apply andb_prop in H as [Hc Hr]. rewrite (IH Hr).
  destruct r; [rewrite (proj1 (payload_char_facts c Hc))|]; reflexivity.
Qed.

Lemma trim_payload (s : string) : forall_chars is_payload_char s = true -> trim s = s.
Proof. intros H. unfold trim. rewrite (trim_start_payload s H). exact (trim_end_payload s H). Qed.

Lemma data_url_payload_payload (s : string) :
  forall_chars is_payload_char s = true -> data_url_payload s = None.
Proof.
  intros H. unfold data_url_payload.
  destruct (String.prefix "data:" s) eqn:Hp; [|reflexivity].
  exfalso. apply prefix_correct in Hp.
  destruct s as [|c1 [|c2 [|c3 [|c4 [|c5 r]]]]]; simpl in Hp; try discriminate.
  injection Hp as -> -> -> -> ->. simpl in H. discriminate.
Qed.

Lemma strip_payload (c : string) : forall_chars is_payload_char c = true -> stripDataUrlPrefix c = c.
Proof.
  intros H. unfold stripDataUrlPrefix. rewrite (trim_payload c H), (data_url_payload_payload c H).
  reflexivity.
Qed.

(** The data URL built from a media type and a payload. *)
Lemma strip_data_url (mt c : string) :
  mt <> EmptyString ->
  forall_chars (fun x => negb (ascii_eqb x ";")) mt = true ->
  forall_chars is_payload_char c = true ->
  stripDataUrlPrefix (as_data_url mt c) = c.
Proof.
  intros Hne Hmt Hc. unfold stripDataUrlPrefix, as_data_url.
  assert (Ht : trim ("data:" ++ mt ++ ";base64," ++ c) = "data:" ++ mt ++ ";base64," ++ c).
  { unfold trim. change ("data:" ++ mt ++ ";base64," ++ c) with (String "d" ("ata:" ++ mt ++ ";base64," ++ c)).
    rewrite (trim_start_nonws "d" _ eq_refl).
    change (String "d" ("ata:" ++ mt ++ ";base64," ++ c)) with ("data:" ++ mt ++ ";base64," ++ c).
    rewrite <- string_app_assoc.
    apply trim_end_app_fixed; [discriminate|].
    destruct c as [|x r].
    - reflexivity.
    - apply trim_end_app_fixed; [discriminate|]. apply trim_end_payload, Hc. }
  rewrite Ht. unfold data_url_payload.
  simpl String.prefix. cbv iota.
  replace (String.length ("data:" ++ mt ++ ";base64," ++ c) - 5)
    with (String.length (mt ++ ";base64," ++ c)) by (cbn [String.length String.append]; lia).
  change ("data:" ++ mt ++ ";base64," ++ c) with ("data:" ++ (mt ++ ";base64," ++ c)) at 1.
  change 5 with (String.length "data:") at 1. rewrite substring_app_right.
  change (";base64," ++ c) with (String ";" ("base64," ++ c)).
  rewrite (split_semicolon_app _ _ Hmt).
  destruct mt as [|m0 mt']; [congruence|].
  simpl String.prefix. cbv iota.
  replace (String.length (String ";" ("base64," ++ c)) - 8) with (String.length c) by (simpl; lia).
  change (String ";" ("base64," ++ c)) with (";base64," ++ c).
  change 8 with (String.length ";base64,"). rewrite substring_app_right.
  rewrite (payload_no_line_terminator c Hc). destruct c; reflexivity.
Qed.

Lemma normalize_of_strip (x y : string) :
  stripDataUrlPrefix x = stripDataUrlPrefix y ->
  normalizeBase64ForDecode x = normalizeBase64ForDecode y.
Proof. intros H. unfold normalizeBase64ForDecode. rewrite H. reflexivity. Qed.

Lemma normalize_data_url (mt c : string) :
  mt <> EmptyString ->
  forall_chars (fun x => negb (ascii_eqb x ";")) mt = true ->
  forall_chars is_payload_char c = true ->
  stripDataUrlPrefix (as_data_url mt c) = c /\
  normalizeBase64ForDecode (as_data_url mt c) = normalizeBase64ForDecode c.
Proof.
  intros Hne Hmt Hc. pose proof (strip_data_url mt c Hne Hmt Hc) as H.
  split; [exact H|]. apply normalize_of_strip. rewrite H, (strip_payload c Hc). reflexivity.
Qed.

(** X3. For a media type with no [;] and a payload in the standard or URL-safe alphabet, [stripDataUrlPrefix] recovers the payload of [data:<mt>;base64,<payload>], and the normalizer gives the same canonical base64 for the data URL as for the bare payload. *)
Theorem data_url_roundtrip (mt c : string) :
  mt <> EmptyString ->
  forall_chars (fun x => negb (ascii_eqb x ";")) mt = true ->
  forall_chars is_payload_char c = true ->
  stripDataUrlPrefix (as_data_url mt c) = c /\
  normalizeBase64ForDecode (as_data_url mt c) = normalizeBase64ForDecode c.
Proof. exact (normalize_data_url mt c). Qed.

Lemma has_illegal_app_l (s1 s2 : string) :
  has_illegal_b64 s1 = true -> has_illegal_b64 (s1 ++ s2) = true.
Proof.
  induction s1 as [|c r IH]; simpl; [discriminate|].
  intros H. apply orb_true_iff in H as [H|H]; rewrite ?H; [reflexivity|]. rewrite (IH H).
  apply orb_true_r.
Qed.

(** X4. Content whose trimmed text starts with [data:] but does not match the data-URL regex is kept whole, so its canonical form contains [:] and always fails the alphabet check. *)
Theorem malformed_data_url_rejected (content : string) :
  String.prefix "data:" (trim content) = true ->
  data_url_payload (trim content) = None ->
  has_illegal_b64 (normalizeBase64ForDecode content) = true.
Proof.
  intros Hp Hn. unfold normalizeBase64ForDecode, stripDataUrlPrefix. rewrite Hn, trim_idem.
  apply prefix_correct in Hp.
  destruct (trim content) as [|c1 [|c2 [|c3 [|c4 [|c5 r]]]]]; simpl in Hp; try discriminate.
  injection Hp as -> -> -> -> ->.
  destruct (_ =? 0); [|apply has_illegal_app_l]; reflexivity.
Qed.

(* normalizeMime *)
Lemma lower_ascii_ws (c : ascii) : is_ws (lower_ascii c) = is_ws c.
Proof. ascii_cases c; vm_compute; reflexivity. Qed.

Lemma lower_ascii_idem (c : ascii) : lower_ascii (lower_ascii c) = lower_ascii c.
Proof. ascii_cases c; vm_compute; reflexivity. Qed.

Lemma toLowerCase_idem (s : string) : toLowerCase (toLowerCase s) = toLowerCase s.
Proof. induction s as [|c r IH]; simpl; [reflexivity|]. rewrite IH, lower_ascii_idem. reflexivity. Qed.

Lemma trim_start_lower (s : string) : trim_start (toLowerCase s) = toLowerCase (trim_start s).
Proof.
  induction s as [|c r IH]; simpl; [reflexivity|]. rewrite lower_ascii_ws.
  destruct (is_ws c); [exact IH|reflexivity].
Qed.

Lemma toLowerCase_empty (s : string) : toLowerCase s = EmptyString -> s = EmptyString.
Proof. destruct s; simpl; [reflexivity|discriminate]. Qed.

Lemma trim_end_lower (s : string) : trim_end (toLowerCase s) = toLowerCase (trim_end s).
Proof.
  induction s as [|c r IH]; simpl; [reflexivity|]. rewrite IH, lower_ascii_ws.
  destruct (trim_end r) eqn:E; simpl; [|reflexivity].
  destruct (is_ws c); reflexivity.
Qed.

Lemma trim_lower (s : string) : trim (toLowerCase s) = toLowerCase (trim s).
Proof. unfold trim. rewrite trim_start_lower, trim_end_lower. reflexivity. Qed.

Lemma before_semicolon_none (s : string) :
  forall_chars (fun c => negb (ascii_eqb c ";")) s = true -> before_semicolon s = s.
Proof.
  induction s as [|c r IH]; simpl; [reflexivity|].
  intros H. apply andb_prop in H as [Hc Hr]. apply negb_true_iff in Hc. rewrite Hc, (IH Hr).
  reflexivity.
Qed.

Lemma fc_impl (p q : ascii -> bool) (s : string) :
  (forall c, p c = true -> q c = true) -> forall_chars p s = true -> forall_chars q s = true.
Proof.
  intros Hpq. induction s as [|c r IH]; simpl; [reflexivity|].
  intros H. apply andb_prop in H as [Hc Hr]. rewrite (Hpq c Hc), (IH Hr). reflexivity.
Qed.

Lemma normalizeMime_some (m : option string) (r : string) :
  normalizeMime m = Some r ->
  exists m0, m = Some m0 /\ r = toLowerCase (trim (before_semicolon m0)) /\ r <> EmptyString.
Proof.
  unfold normalizeMime. destruct m as [[|c s]|]; try discriminate.
  destruct (toLowerCase (trim (before_semicolon (String c s)))) eqn:E; [discriminate|].
  intros H. injection H as <-. exists (String c s). split; [reflexivity|]. split; [|discriminate].
  symmetry. exact E.
Qed.

(** X5. [normalizeMime] is idempotent: normalizing an already normalized type changes nothing. *)
Theorem normalizeMime_idempotent (m : option string) :
  normalizeMime (normalizeMime m) = normalizeMime m.
Proof.
  destruct (normalizeMime m) as [r|] eqn:E; [|reflexivity].
  pose proof (normalizeMime_well_formed _ _ E) as Hwf.
  apply normalizeMime_some in E as [m0 [_ [Hr Hne]]].
  assert (Hb : before_semicolon r = r).
  { apply before_semicolon_none. revert Hwf. unfold mime_well_formed. apply fc_impl.
    intros c H. unfold mime_char_ok in H. apply andb_prop in H as [_ H]. exact H. }
  assert (Ht : trim r = r).
  { rewrite Hr, trim_lower, trim_idem. reflexivity. }
  assert (Hl : toLowerCase r = r).
  { rewrite Hr, toLowerCase_idem. reflexivity. }
  destruct r as [|c s]; [congruence|].
  unfold normalizeMime. rewrite Hb, Ht, Hl. reflexivity.
Qed.

Lemma before_semicolon_app (m p : string) :
  before_semicolon (m ++ String ";" p) = before_semicolon m.
Proof.
  induction m as [|c r IH]; simpl; [reflexivity|].
  destruct (ascii_eqb c ";"); [reflexivity|]. rewrite IH. reflexivity.
Qed.

(** X6. [normalizeMime] ignores everything from the first [;] on: appending parameters to a type never changes its normalized form. *)
Theorem normalizeMime_ignores_parameters (m p : string) :
  normalizeMime (Some (m ++ String ";" p)) = normalizeMime (Some m).
Proof.
  destruct m as [|c r].
  - reflexivity.
  - unfold normalizeMime. change (String c r ++ String ";" p) with (String c (r ++ String ";" p)).
    rewrite <- (before_semicolon_app (String c r) p). reflexivity.
Qed.

Lemma unbase64_data (c : ascii) : is_b64_data_char c = true -> exists v, unbase64 c = Some v.
Proof. ascii_cases c; vm_compute; try discriminate; intros _; eexists; reflexivity. Qed.

Lemma sextets_data (body pad : string) :
  forall_chars is_b64_data_char body = true ->
  (pad = "" \/ pad = "=" \/ pad = "==") ->
  length (sextets (body ++ pad)) = String.length body.
Proof.
  intros Hb Hp. induction body as [|c r IH]; simpl.
  - destruct Hp as [-> | [-> | ->]]; reflexivity.
  - simpl in Hb. apply andb_prop in Hb as [Hc Hr].
    destruct (unbase64_data c Hc) as [v Hv]. rewrite Hv. simpl. rewrite (IH Hr). reflexivity.
Qed.

Lemma bytes_of_sextets_length (l : list Z) : length (bytes_of_sextets l) = 3 * length l / 4.
Proof.
  assert (H : forall n l, length l <= n -> length (bytes_of_sextets l) = 3 * length l / 4).
  { induction n as [|n IH]; intros l' Hl.
    - destruct l'; [reflexivity|simpl in Hl; lia].
    - destruct l' as [|a [|b [|c [|d r]]]]; try reflexivity.
      change (length (bytes_of_sextets (a :: b :: c :: d :: r))) with (3 + length (bytes_of_sextets r)).
      rewrite (IH r) by (simpl in Hl; lia).
      change (length (a :: b :: c :: d :: r)) with (4 + length r).
      replace (3 * (4 + length r)) with (3 * length r + 3 * 4) by lia.
      rewrite Nat.div_add by lia. lia. }
  apply (H (length l)). lia.
Qed.

Lemma get_data_not_eq (s : string) (i : nat) (c : ascii) :
  forall_chars is_b64_data_char s = true -> String.get i s = Some c -> ascii_eqb c "=" = false.
Proof.
  revert i. induction s as [|x r IH]; intros i Hs Hg; [destruct i; discriminate|].
  simpl in Hs. apply andb_prop in Hs as [Hx Hr].
  destruct i as [|i]; simpl in Hg.
  - injection Hg as <-. unfold is_b64_data_char in Hx. apply andb_prop in Hx as [_ Hx].
    apply negb_true_iff, Hx.
  - exact (IH i Hr Hg).
Qed.

Lemma last_is_eq_body (body pad : string) (n : nat) :
  forall_chars is_b64_data_char body = true -> n <= String.length body ->
  last_is_eq (body ++ pad) n = false.
Proof.
  intros Hb Hn. unfold last_is_eq.
  destruct n as [|n]; [destruct (String.get _ _); reflexivity|].
  rewrite <- (append_correct1 body pad) by lia.
  destruct (String.get (S n - 1) body) as [c|] eqn:E; [|reflexivity].
  rewrite (get_data_not_eq _ _ _ Hb E), andb_false_r. reflexivity.
Qed.

Lemma last_is_eq_pad (body pad : string) (k : nat) :
  k < String.length pad -> String.get k pad = Some "="%char ->
  last_is_eq (body ++ pad) (String.length body + S k) = true.
Proof.
  intros Hk Hg. unfold last_is_eq.
  replace (String.length body + S k - 1) with (k + String.length body) by lia.
  rewrite <- (append_correct2 body pad) by exact Hk. rewrite Hg.
  replace (0 <? String.length body + S k) with true by (symmetry; apply Nat.ltb_lt; lia).
  reflexivity.
Qed.

Lemma base64ByteLength_data (body pad : string) :
  forall_chars is_b64_data_char body = true ->
  (pad = "" \/ pad = "=" \/ pad = "==") ->
  base64ByteLength (body ++ pad) = 3 * String.length body / 4.
Proof.
  intros Hb Hp. unfold base64ByteLength. rewrite length_append.
  destruct Hp as [-> | [-> | ->]]; simpl String.length.
  - rewrite Nat.add_0_r, (last_is_eq_body _ _ _ Hb (le_n _)).
    rewrite (last_is_eq_body _ _ _ Hb (le_n _)), andb_false_r. f_equal. lia.
  - rewrite (last_is_eq_pad body "=" 0) by (simpl; auto).
    replace (String.length body + 1 - 1) with (String.length body) by lia.
    rewrite (last_is_eq_body _ _ _ Hb (le_n _)), andb_false_r. f_equal. lia.
  - rewrite (last_is_eq_pad body "==" 1) by (simpl; auto).
    replace (String.length body + 2 - 1) with (String.length body + 1) by lia.
    destruct (String.length body) as [|L'] eqn:EL.
    + reflexivity.
    + replace (1 <? S L' + 1) with true by (symmetry; apply Nat.ltb_lt; lia).
      rewrite <- EL.
      rewrite (last_is_eq_pad body "==" 0) by (simpl; auto). simpl andb. cbv iota.
      f_equal. lia.
Qed.

(** X7. For a body of base64 data characters followed by no padding, [=] or [==], [Buffer.from(_, "base64")] yields floor(3n/4) bytes, n being the number of data characters. *)
Theorem decoded_size_three_quarters (body pad : string) :
  forall_chars is_b64_data_char body = true ->
  (pad = "" \/ pad = "=" \/ pad = "==") ->
  length (bufferFromBase64 (body ++ pad)) = 3 * String.length body / 4.
Proof.
  intros Hb Hp. unfold bufferFromBase64.
  rewrite length_firstn, bytes_of_sextets_length, (sextets_data _ _ Hb Hp),
    (base64ByteLength_data _ _ Hb Hp).
  apply Nat.min_id.
Qed.

(* sniffing *)
(** X8. Sniffing returns nothing, without calling the detector, when the normalized content has fewer than 8 characters. *)
Theorem sniff_short_content_none (detectMime : Buffer -> option string) (content : string) :
  String.length (normalizeBase64ForDecode content) < 8 ->
  sniffMimeFromBase64 detectMime content = None.
Proof.
  intros H. unfold sniffMimeFromBase64.
  destruct (normalizeBase64ForDecode content) as [|c r] eqn:E; [reflexivity|].
  rewrite Nat.min_r by lia.
  replace (String.length (String c r) - String.length (String c r) mod 4 <? 8) with true;
    [reflexivity|].
  symmetry. apply Nat.ltb_lt. pose proof (Nat.Div0.mod_le (String.length (String c r)) 4). lia.
Qed.

Lemma length_substring_le (m n : nat) (s : string) : String.length (substring m n s) <= n.
Proof.
  revert n s. induction m as [|m IH]; intros n s.
  - revert s. induction n as [|n IHn]; intros s; [destruct s; simpl; lia|].
    destruct s as [|c r]; simpl; [lia|]. specialize (IHn r). lia.
  - destruct s as [|c r]; simpl; [destruct n; simpl; lia|]. apply IH.
Qed.

Lemma base64ByteLength_le (s : string) : base64ByteLength s <= String.length s * 3 / 4.
Proof.
  unfold base64ByteLength. apply Nat.Div0.div_le_mono.
  destruct (last_is_eq s (String.length s)), (1 <? _), (last_is_eq s _); simpl; lia.
Qed.

Lemma bufferFromBase64_length_le (s : string) :
  length (bufferFromBase64 s) <= String.length s * 3 / 4.
Proof.
  unfold bufferFromBase64. rewrite length_firstn.
  pose proof (base64ByteLength_le s). lia.
Qed.

(** X9. Sniffing only depends on what the detector answers for buffers of at most 192 bytes: the head decoded from the first 256 normalized characters is never longer. *)
Theorem sniff_detector_sees_at_most_192_bytes (detectMime : Buffer -> option string) (content : string) :
  sniffMimeFromBase64 detectMime content
  = sniffMimeFromBase64 (fun b => if length b <=? 192 then detectMime b else None) content.
Proof.
  unfold sniffMimeFromBase64.
  destruct (normalizeBase64ForDecode content) as [|c r]; [reflexivity|].
  set (n := String.length (String c r)).
  set (sl := Nat.min 256 n - Nat.min 256 n mod 4).
  destruct (sl <? 8); [reflexivity|].
  set (buf := bufferFromBase64 (substring 0 sl (String c r))).
  assert (Hb : length buf <= 192).
  { pose proof (bufferFromBase64_length_le (substring 0 sl (String c r))).
    pose proof (length_substring_le 0 sl (String c r)).
    assert (sl <= 256) by (unfold sl; pose proof (Nat.le_min_l 256 n); lia).
    assert (String.length (substring 0 sl (String c r)) * 3 / 4 <= 256 * 3 / 4)
      by (apply Nat.Div0.div_le_mono; lia).
    change (256 * 3 / 4) with 192 in *. fold buf in H. lia. }
  apply Nat.leb_le in Hb. rewrite Hb. reflexivity.
Qed.

Section Lenient.
Variable detectMime : Buffer -> option string.

Lemma parse_step_image_ok (maxBytes : N) (idx : nat) (a : ChatAttachment)
    (img : ChatImageContent) (ws : list string) :
  parse_step detectMime maxBytes idx a = Ok (Some img, ws) -> image_record_ok maxBytes img.
Proof.
  unfold parse_step.
  destruct (att_content a) as [content|]; [|discriminate].
  destruct (has_illegal_b64 _) eqn:Hi; [discriminate|].
  destruct (size_out_of_range _ _) eqn:Hs; [discriminate|].
  apply size_range_of_false in Hs.
  cbv zeta.
  destruct (normalizeMime (sniffMimeFromBase64 detectMime _)) as [s|] eqn:Hsn.
  - destruct (isImageMime (Some s)) eqn:Him; simpl negb; cbv iota;
      [|split_ifs; discriminate].
    intros H. injection H as <- _.
    unfold image_record_ok; simpl.
    exact (conj eq_refl (conj Him (conj (normalizeMime_well_formed _ _ Hsn)
             (conj Hi (conj (normalize_length_mod4 content) Hs))))).
  - destruct (normalizeMime (Some (mime_or_empty a))) as [p|] eqn:Hp.
    + destruct (isImageMime (Some p)) eqn:Him; simpl negb; cbv iota;
        [|split_ifs; discriminate].
      intros H. injection H as <- _.
      unfold image_record_ok; simpl.
      exact (conj eq_refl (conj Him (conj (normalizeMime_well_formed _ _ Hp)
               (conj Hi (conj (normalize_length_mod4 content) Hs))))).
    + simpl. split_ifs; discriminate.
Qed.

Lemma collect_images_all_ok (log : bool) (maxBytes : N) (atts : list ChatAttachment) (idx : nat)
    (ws : list string) (imgs : list ChatImageContent) :
  collect_images detectMime log maxBytes idx atts = (ws, Ok imgs) ->
  Forall (image_record_ok maxBytes) imgs.
Proof.
  revert idx ws imgs. induction atts as [|a rest IH]; intros idx ws imgs H.
  - simpl in H. injection H as _ <-. constructor.
  - simpl in H. destruct (parse_step detectMime maxBytes idx a) as [[img w]|e] eqn:Hs;
      [|discriminate].
    destruct (collect_images detectMime log maxBytes (S idx) rest) as [w' r] eqn:E.
    destruct r as [imgs'|e]; [|discriminate].
    injection H as _ <-. apply Forall_app. split.
    + destruct img as [img|]; simpl; [|constructor].
      constructor; [exact (parse_step_image_ok _ _ _ _ _ Hs) | constructor].
    + exact (IH _ _ _ E).
Qed.

(** X10. Every image returned by the lenient path has type ["image"], a lowercase parameter-free MIME type starting with [image/], and data in the base64 alphabet with a length that is a multiple of 4 whose decoding has 1 to [maxBytes] bytes (default 5,000,000). *)
Theorem lenient_images_well_formed (message : string) (atts : option (list ChatAttachment))
    (opts : option ParseOpts) (ws : list string) (p : ParsedMessageWithImages) :
  parseMessageWithAttachments detectMime message atts opts = (ws, Ok p) ->
  Forall (image_record_ok
            (match opts with
             | Some o => match opt_maxBytes o with Some m => m | None => 5000000%N end
             | None => 5000000%N
             end)) (parsed_images p).
Proof.
  unfold parseMessageWithAttachments.
  destruct atts as [[|a rest]|]; intros H.
  - injection H as _ <-. constructor.
  - destruct (collect_images _ _ _ _ _) as [w r] eqn:E. destruct r as [imgs|e]; [|discriminate].
    injection H as _ <-. exact (collect_images_all_ok _ _ _ _ _ _ E).
  - injection H as _ <-. constructor.
Qed.

(* counts *)
Lemma parse_step_one_warning (maxBytes : N) (idx : nat) (a : ChatAttachment)
    (img : option ChatImageContent) (ws : list string) :
  parse_step detectMime maxBytes idx a = Ok (img, ws) -> length ws <= 1.
Proof.
  unfold parse_step.
  destruct (att_content a) as [content|]; [|discriminate].
  destruct (has_illegal_b64 _); [discriminate|].
  destruct (size_out_of_range _ _); [discriminate|].
  cbv zeta.
  destruct (normalizeMime (sniffMimeFromBase64 detectMime _)) as [s|];
    destruct (normalizeMime (Some (mime_or_empty a))) as [p|];
    intros H; split_ifs_in H; injection H as _ <-; simpl; lia.
Qed.

Lemma collect_images_per_attachment (log : bool) (maxBytes : N) (atts : list ChatAttachment) (idx : nat)
    (ws : list string) (r : Result (list ChatImageContent)) :
  collect_images detectMime log maxBytes idx atts = (ws, r) ->
  (exists per : list (list string),
     ws = concat per /\ length per <= length atts /\
     forall k w, nth_error per k = Some w ->
       length w <= 1 /\
       exists a img w0, nth_error atts k = Some a /\
         parse_step detectMime maxBytes (idx + k) a = Ok (img, w0) /\
         w = (if log then w0 else [])) /\
  (forall imgs, r = Ok imgs ->
     exists per_img : list (option ChatImageContent),
       length per_img = length atts /\
       imgs = concat (map option_to_list per_img) /\
       forall k o, nth_error per_img k = Some o ->
         exists a w0, nth_error atts k = Some a /\
           parse_step detectMime maxBytes (idx + k) a = Ok (o, w0)).
Proof.
  revert idx ws r. induction atts as [|a rest IH]; intros idx ws r H.
  - simpl in H. injection H as <- <-. split.
    + exists []. split; [reflexivity|]. split; [simpl; lia|].
      intros k w Hk. destruct k; discriminate.
    + intros imgs E. injection E as <-. exists []. split; [reflexivity|].
      split; [reflexivity|]. intros k o Hk. destruct k; discriminate.
  - simpl in H. destruct (parse_step detectMime maxBytes idx a) as [[img w]|e] eqn:Hs.
    + pose proof (parse_step_one_warning _ _ _ _ _ Hs) as Hw.
      destruct (collect_images detectMime log maxBytes (S idx) rest) as [w' r'] eqn:E.
      destruct (IH _ _ _ E) as [[per [Hws [Hlen Hper]]] Hi'].
      injection H as <- <-. split.
      * exists ((if log then w else []) :: per). split; [simpl; rewrite Hws; reflexivity|].
        split; [simpl; lia|].
        intros [|k] w1 Hk; simpl in Hk.
        -- injection Hk as <-. split; [destruct log; simpl; lia|].
           exists a, img, w. rewrite Nat.add_0_r. split; [reflexivity|]. split; [exact Hs|reflexivity].
        -- destruct (Hper k w1 Hk) as [Hl [a' [img' [w0 [Ha [Hs' Hw1]]]]]].
           split; [exact Hl|]. exists a', img', w0.
           replace (idx + S k) with (S idx + k) by lia. split; [exact Ha|]. split; [exact Hs'|exact Hw1].
      * intros imgs Hr. destruct r' as [imgs'|e]; [|discriminate].
        injection Hr as <-. destruct (Hi' imgs' eq_refl) as [per_img [Hl [Himgs Hpi]]].
        exists (img :: per_img). split; [simpl; rewrite Hl; reflexivity|].
        split; [simpl; rewrite Himgs; reflexivity|].
        intros [|k] o Hk; simpl in Hk.
        -- injection Hk as <-. exists a, w. rewrite Nat.add_0_r. split; [reflexivity|exact Hs].
        -- destruct (Hpi k o Hk) as [a' [w0 [Ha Hs']]]. exists a', w0.
           replace (idx + S k) with (S idx + k) by lia. split; [exact Ha|exact Hs'].
    + injection H as <- <-. split.
      * exists []. split; [reflexivity|]. split; [simpl; lia|].
        intros k w Hk. destruct k; discriminate.
      * discriminate.
Qed.

(** X11. The lenient path logs at most one warning per attachment and returns at most one
    image per attachment: the warnings are the concatenation, in attachment order, of one list
    of at most one warning for each attachment processed, the [k]-th list being the warnings of
    the loop body on the [k]-th attachment (kept only when logging is on); on success the images
    are the concatenation of one optional image for each attachment, the [k]-th being the image
    the loop body returns for the [k]-th attachment. *)
Theorem lenient_at_most_one_warning_and_image_each (message : string) (atts : list ChatAttachment)
    (opts : option ParseOpts) (ws : list string) (r : Result ParsedMessageWithImages) :
  let maxBytes :=
    match opts with
    | Some o => match opt_maxBytes o with Some m => m | None => 5000000%N end
    | None => 5000000%N
    end in
  let log := match opts with Some o => opt_log o | None => false end in
  parseMessageWithAttachments detectMime message (Some atts) opts = (ws, r) ->
  (exists per : list (list string),
     ws = concat per /\ length per <= length atts /\
     forall k w, nth_error per k = Some w ->
       length w <= 1 /\
       exists a img w0, nth_error atts k = Some a /\
         parse_step detectMime maxBytes k a = Ok (img, w0) /\
         w = (if log then w0 else [])) /\
  (forall p, r = Ok p ->
     exists per_img : list (option ChatImageContent),
       length per_img = length atts /\
       parsed_images p = concat (map option_to_list per_img) /\
       forall k o, nth_error per_img k = Some o ->
         exists a w0, nth_error atts k = Some a /\
           parse_step detectMime maxBytes k a = Ok (o, w0)).
Proof.
  cbv zeta. unfold parseMessageWithAttachments. destruct atts as [|a rest]; intros H.
  - injection H as <- <-. split.
    + exists []. split; [reflexivity|]. split; [simpl; lia|].
      intros k w Hk. destruct k; discriminate.
    + intros p E. injection E as <-. exists []. split; [reflexivity|].
      split; [reflexivity|]. intros k o Hk. destruct k; discriminate.
  - destruct (collect_images _ _ _ _ _) as [w r'] eqn:E.
    destruct (collect_images_per_attachment _ _ _ _ _ _ E) as [Hw Hi].
    injection H as <- <-. split; [exact Hw|].
    intros p Hp. destruct r' as [imgs|e]; [|discriminate]. injection Hp as <-.
    exact (Hi _ eq_refl).
Qed.

(* silent drop *)
(** X12. An attachment that passes validation and is dropped by the lenient path without any warning is declared audio or sniffed as audio. *)
Theorem lenient_silent_drop_only_audio (maxBytes : N) (idx : nat) (a : ChatAttachment) (content : string) :
  att_content a = UString content ->
  parse_step detectMime maxBytes idx a = Ok (None, []) ->
  isAudioMime (normalizeMime (att_mimeType a)) = true \/
  isAudioMime (normalizeMime (sniffMimeFromBase64 detectMime (normalizeBase64ForDecode content))) = true.
Proof.
  intros Hc. unfold parse_step. rewrite Hc.
  destruct (has_illegal_b64 _); [discriminate|].
  destruct (size_out_of_range _ _); [discriminate|].
  cbv zeta. rewrite normalizeMime_mime_or_empty.
  destruct (normalizeMime (sniffMimeFromBase64 detectMime _)) as [s|];
    destruct (normalizeMime (att_mimeType a)) as [p|];
    cbn [isAudioMime isImageMime option_string_eqb];
    [ destruct (startsWith s "image/"), (startsWith s "audio/"), (startsWith p "audio/")
    | destruct (startsWith s "image/"), (startsWith s "audio/")
    | destruct (startsWith p "image/"), (startsWith p "audio/")
    | ];
    simpl; intros H; split_ifs_in H; try discriminate; auto.
Qed.


End Lenient.

Section Paths.
Variable detectMime : Buffer -> option string.

(** X13. For a string content, [decodeAndValidateAudioAttachment] throws an error exactly when the loop body of the lenient path throws it for the same attachment, index and ceiling. *)
Theorem audio_and_lenient_validation_agree (maxBytes : N) (idx : nat) (a : ChatAttachment) (content : string)
    (e : AttachmentError) :
  att_content a = UString content ->
  decodeAndValidateAudioAttachment detectMime a content idx maxBytes = Throw e <->
  parse_step detectMime maxBytes idx a = Throw e.
Proof.
  intros Hc. unfold decodeAndValidateAudioAttachment, parse_step. rewrite Hc. cbv zeta.
  destruct (has_illegal_b64 _); [split; intros H; injection H as <-; reflexivity|].
  destruct (size_out_of_range _ _); [split; intros H; injection H as <-; reflexivity|].
  split; intros H.
  - exfalso. destruct (normalizeMime (att_mimeType a)); [|destruct (detectMime _)];
      split_ifs_in H; discriminate.
  - exfalso. destruct (normalizeMime (sniffMimeFromBase64 detectMime _)) as [s|];
      destruct (normalizeMime (Some (mime_or_empty a))); split_ifs_in H; discriminate.
Qed.

Lemma size_mono (n m m' : N) :
  (m <= m')%N -> size_out_of_range n m = false -> size_out_of_range n m' = false.
Proof. intros Hle H. apply size_range_of_false in H. apply size_in_range. lia. Qed.

Lemma parse_step_mono (m m' : N) (idx : nat) (a : ChatAttachment) v :
  (m <= m')%N -> parse_step detectMime m idx a = Ok v -> parse_step detectMime m' idx a = Ok v.
Proof.
  intros Hle. unfold parse_step. destruct (att_content a) as [content|]; [|discriminate].
  destruct (has_illegal_b64 _); [discriminate|]. cbv zeta.
  destruct (size_out_of_range (N.of_nat (length (bufferFromBase64 (normalizeBase64ForDecode content)))) m)
    eqn:E; [discriminate|].
  rewrite (size_mono _ _ _ Hle E). tauto.
Qed.

Lemma collect_images_mono (log : bool) (m m' : N) (atts : list ChatAttachment) (idx : nat)
    (ws : list string) (imgs : list ChatImageContent) :
  (m <= m')%N ->
  collect_images detectMime log m idx atts = (ws, Ok imgs) ->
  collect_images detectMime log m' idx atts = (ws, Ok imgs).
Proof.
  intros Hle. revert idx ws imgs. induction atts as [|a rest IH]; intros idx ws imgs H; [exact H|].
  simpl in H |- *.
  destruct (parse_step detectMime m idx a) as [v|e] eqn:Hs; [|discriminate].
  rewrite (parse_step_mono _ _ _ _ _ Hle Hs). destruct v as [img w].
  destruct (collect_images detectMime log m (S idx) rest) as [w' r] eqn:E.
  destruct r as [imgs'|e]; [|discriminate].
  rewrite (IH _ _ _ E). exact H.
Qed.

(** X14. Raising [maxBytes] never changes a successful result of the lenient path: the same images and the same warnings are returned. *)
Theorem lenient_monotone_in_maxBytes (message : string) (atts : option (list ChatAttachment)) (log : bool)
    (m m' : N) (ws : list string) (p : ParsedMessageWithImages) :
  (m <= m')%N ->
  parseMessageWithAttachments detectMime message atts
    (Some {| opt_maxBytes := Some m; opt_log := log |}) = (ws, Ok p) ->
  parseMessageWithAttachments detectMime message atts
    (Some {| opt_maxBytes := Some m'; opt_log := log |}) = (ws, Ok p).
Proof.
  intros Hle. unfold parseMessageWithAttachments. simpl.
  destruct atts as [[|a rest]|]; try tauto.
  destruct (collect_images detectMime log m 0 (a :: rest)) as [w r] eqn:E.
  destruct r as [imgs|e]; [|discriminate].
  rewrite (collect_images_mono _ _ _ _ _ _ _ Hle E). tauto.
Qed.

Lemma decode_mono (m m' : N) (idx : nat) (a : ChatAttachment) (content : string) v :
  (m <= m')%N ->
  decodeAndValidateAudioAttachment detectMime a content idx m = Ok v ->
  decodeAndValidateAudioAttachment detectMime a content idx m' = Ok v.
Proof.
  intros Hle. unfold decodeAndValidateAudioAttachment.
  destruct (has_illegal_b64 _); [discriminate|]. cbv zeta.
  destruct (size_out_of_range (N.of_nat (length (bufferFromBase64 (normalizeBase64ForDecode content)))) m)
    eqn:E; [discriminate|].
  rewrite (size_mono _ _ _ Hle E). tauto.
Qed.

Lemma audio_step_mono (m m' : N) (idx : nat) (a : ChatAttachment) v :
  (m <= m')%N -> audio_step detectMime m idx a = Ok v -> audio_step detectMime m' idx a = Ok v.
Proof.
  intros Hle. unfold audio_step. destruct (att_content a) as [content|]; [|tauto].
  destruct (isAudioMime (normalizeMime (Some (mime_or_empty a)))).
  - destruct (decodeAndValidateAudioAttachment detectMime a content idx m) as [r1|e] eqn:E1;
      [|discriminate].
    rewrite (decode_mono _ _ _ _ _ _ Hle E1).
    destruct r1 as [r|]; [tauto|].
    destruct (isAudioMime _); intros H; first [exact (decode_mono _ _ _ _ _ _ Hle H) | exact H].
  - destruct (isAudioMime _); intros H; first [exact (decode_mono _ _ _ _ _ _ Hle H) | exact H].
Qed.

Lemma first_audio_loop_mono (m m' : N) (atts : list ChatAttachment) (idx : nat) v :
  (m <= m')%N ->
  first_audio_loop detectMime m idx atts = Ok v -> first_audio_loop detectMime m' idx atts = Ok v.
Proof.
  intros Hle. revert idx. induction atts as [|a rest IH]; intros idx H; [exact H|].
  simpl in H |- *.
  destruct (audio_step detectMime m idx a) as [r|e] eqn:E; [|discriminate].
  rewrite (audio_step_mono _ _ _ _ _ Hle E).
  destruct r; [exact H|]. exact (IH _ H).
Qed.

(** X15. Raising [maxBytes] never changes a result of the strict first-audio path that did not throw. *)
Theorem audio_monotone_in_maxBytes (atts : option (list ChatAttachment)) (m m' : N) v :
  (m <= m')%N ->
  getFirstAudioAttachment detectMime atts m = Ok v ->
  getFirstAudioAttachment detectMime atts m' = Ok v.
Proof.
  intros Hle. unfold getFirstAudioAttachment. destruct atts as [[|a rest]|]; try tauto.
  apply first_audio_loop_mono, Hle.
Qed.

(* data URL form *)

Lemma variant_fields (a b : ChatAttachment) :
  data_url_variant a b ->
  mime_or_empty a = mime_or_empty b /\ (forall idx, attachment_label idx a = attachment_label idx b) /\
  att_mimeType a = att_mimeType b /\
  exists x y, att_content a = UString x /\ att_content b = UString y /\
              normalizeBase64ForDecode x = normalizeBase64ForDecode y.
Proof.
  intros [Ht [Hm [Hf [mt [c [Hne [Hmt [Hc [Ha Hb]]]]]]]]].
  split; [unfold mime_or_empty; rewrite Hm; reflexivity|].
  split; [intros idx; unfold attachment_label; rewrite Ht, Hf; reflexivity|].
  split; [exact Hm|].
  exists (as_data_url mt c), c. split; [exact Ha|]. split; [exact Hb|].
  exact (proj2 (normalize_data_url mt c Hne Hmt Hc)).
Qed.

Lemma parse_step_variant (m : N) (idx : nat) (a b : ChatAttachment) :
  data_url_variant a b -> parse_step detectMime m idx a = parse_step detectMime m idx b.
Proof.
  intros H. destruct (variant_fields a b H) as [Hm [Hl [_ [x [y [Ha [Hb Hn]]]]]]].
  unfold parse_step. rewrite Hm, Hl, Ha, Hb. cbv zeta. rewrite Hn. reflexivity.
Qed.

Lemma audio_step_variant (m : N) (idx : nat) (a b : ChatAttachment) :
  data_url_variant a b -> audio_step detectMime m idx a = audio_step detectMime m idx b.
Proof.
  intros H. destruct (variant_fields a b H) as [Hm [Hl [Hmt [x [y [Ha [Hb Hn]]]]]]].
  assert (Hd : decodeAndValidateAudioAttachment detectMime a x idx m
               = decodeAndValidateAudioAttachment detectMime b y idx m).
  { unfold decodeAndValidateAudioAttachment. rewrite Hl, Hn, Hmt. reflexivity. }
  assert (Hs : sniffMimeFromBase64 detectMime x = sniffMimeFromBase64 detectMime y).
  { unfold sniffMimeFromBase64. rewrite Hn. reflexivity. }
  unfold audio_step. rewrite Ha, Hb, Hm, Hd, Hs. reflexivity.
Qed.


Lemma collect_images_variant (log : bool) (m : N) (l1 l2 : list ChatAttachment) (idx : nat) :
  Forall2 same_or_data_url l1 l2 ->
  collect_images detectMime log m idx l1 = collect_images detectMime log m idx l2.
Proof.
  intros H. revert idx. induction H as [|a b l1 l2 Hab Hl IH]; intros idx; [reflexivity|].
  simpl. rewrite IH.
  destruct Hab as [<- | Hv]; [reflexivity|]. rewrite (parse_step_variant _ _ _ _ Hv). reflexivity.
Qed.

(** X17. Sending some payloads as data URLs ([data:<mt>;base64,<payload>], [mt] without [;], payload in the standard or URL-safe alphabet) instead of bare base64 leaves the result of the lenient path unchanged, warnings and errors included. *)
Theorem lenient_data_url_transparent (message : string) (l1 l2 : list ChatAttachment) (opts : option ParseOpts) :
  Forall2 same_or_data_url l1 l2 ->
  parseMessageWithAttachments detectMime message (Some l1) opts
  = parseMessageWithAttachments detectMime message (Some l2) opts.
Proof.
  intros H. unfold parseMessageWithAttachments.
  destruct H as [|a b l1 l2 Hab Hl]; [reflexivity|].
  rewrite (collect_images_variant _ _ (a :: l1) (b :: l2) 0 (Forall2_cons _ _ Hab Hl)).
  reflexivity.
Qed.

Lemma first_audio_loop_variant (m : N) (l1 l2 : list ChatAttachment) (idx : nat) :
  Forall2 same_or_data_url l1 l2 ->
  first_audio_loop detectMime m idx l1 = first_audio_loop detectMime m idx l2.
Proof.
  intros H. revert idx. induction H as [|a b l1 l2 Hab Hl IH]; intros idx; [reflexivity|].
  simpl. rewrite IH.
  destruct Hab as [<- | Hv]; [reflexivity|]. rewrite (audio_step_variant _ _ _ _ Hv). reflexivity.
Qed.

(** X18. Sending some payloads as data URLs instead of bare base64 leaves the result of the strict first-audio path unchanged, errors included. *)
Theorem audio_data_url_transparent (l1 l2 : list ChatAttachment) (m : N) :
  Forall2 same_or_data_url l1 l2 ->
  getFirstAudioAttachment detectMime (Some l1) m = getFirstAudioAttachment detectMime (Some l2) m.
Proof.
  intros H. unfold getFirstAudioAttachment.
  destruct H as [|a b l1 l2 Hab Hl]; [reflexivity|].
  exact (first_audio_loop_variant _ (a :: l1) (b :: l2) 0 (Forall2_cons _ _ Hab Hl)).
Qed.

(* origin of the audio result *)
Lemma audio_step_some_content (m : N) (idx : nat) (a : ChatAttachment) (r : FirstAudioResult) :
  audio_step detectMime m idx a = Ok (Some r) ->
  exists content, att_content a = UString content /\
    decodeAndValidateAudioAttachment detectMime a content idx m = Ok (Some r).
Proof.
  unfold audio_step. destruct (att_content a) as [content|]; [|discriminate].
  intros H. exists content. split; [reflexivity|].
  destruct (isAudioMime (normalizeMime (Some (mime_or_empty a)))).
  - destruct (decodeAndValidateAudioAttachment detectMime a content idx m)
      as [[x|]|e] eqn:Hd; [ | | discriminate H].
    + exact H.
    + destruct (isAudioMime _); [exact H | discriminate H].
  - destruct (isAudioMime _); [exact H | discriminate H].
Qed.

Lemma first_audio_some_in (m : N) (atts : list ChatAttachment) (idx : nat) (r : FirstAudioResult) :
  first_audio_loop detectMime m idx atts = Ok (Some r) ->
  exists k a, In a atts /\ audio_step detectMime m k a = Ok (Some r).
Proof.
  revert idx. induction atts as [|a rest IH]; intros idx H; simpl in H; [discriminate|].
  destruct (audio_step detectMime m idx a) as [[x|]|e] eqn:Hs; [| |discriminate].
  - injection H as ->. exists idx, a. split; [left; reflexivity|exact Hs].
  - destruct (IH _ H) as [k [b [Hin Hb]]]. exists k, b. split; [right; exact Hin|exact Hb].
Qed.

(** X19. A buffer returned by the strict first-audio path is the decoding of the normalized content of one of the input attachments, and when that attachment declares a MIME type the returned type is its normalized declared type. *)
Theorem audio_result_from_input (atts : list ChatAttachment) (m : N) (r : FirstAudioResult) :
  getFirstAudioAttachment detectMime (Some atts) m = Ok (Some r) ->
  exists a content, In a atts /\ att_content a = UString content /\
    buffer r = bufferFromBase64 (normalizeBase64ForDecode content) /\
    (forall p, normalizeMime (att_mimeType a) = Some p -> audio_mimeType r = p).
Proof.
  unfold getFirstAudioAttachment. destruct atts as [|x l]; [discriminate|].
  intros H. destruct (first_audio_some_in _ _ _ _ H) as [k [a [Hin Ha]]].
  destruct (audio_step_some_content _ _ _ _ Ha) as [content [Hc Hd]].
  exists a, content. split; [exact Hin|]. split; [exact Hc|].
  unfold decodeAndValidateAudioAttachment in Hd. cbv zeta in Hd.
  destruct (has_illegal_b64 _); [discriminate|].
  destruct (size_out_of_range _ _); [discriminate|].
  destruct (normalizeMime (att_mimeType a)) as [q|];
    [|destruct (detectMime _)]; split_ifs_in Hd; try discriminate;
    injection Hd as <-; simpl; (split; [reflexivity|]); intros p Hp; congruence.
Qed.

End Paths.

Lemma legacy_step_mono (m m' : N) (idx : nat) (a : ChatAttachment) v :
  (m <= m')%N -> legacy_step m idx a = Ok v -> legacy_step m' idx a = Ok v.
Proof.
  intros Hle. unfold legacy_step. destruct (att_content a) as [content|]; [|discriminate].
  destruct (negb (startsWith _ _)); [discriminate|].
  destruct (_ || has_illegal_b64 _); [discriminate|]. cbv zeta.
  destruct (size_out_of_range (N.of_nat (length (bufferFromBase64 (trim content)))) m)
    eqn:E; [discriminate|].
  rewrite (size_mono _ _ _ Hle E). tauto.
Qed.

Lemma legacy_loop_mono (m m' : N) (atts : list ChatAttachment) (idx : nat) v :
  (m <= m')%N -> legacy_loop m idx atts = Ok v -> legacy_loop m' idx atts = Ok v.
Proof.
  intros Hle. revert idx v. induction atts as [|a rest IH]; intros idx v H; [exact H|].
  simpl in H |- *.
  destruct (legacy_step m idx a) as [b|e] eqn:E; [|discriminate].
  rewrite (legacy_step_mono _ _ _ _ _ Hle E).
  destruct (legacy_loop m (S idx) rest) as [bs|e] eqn:E2; [|discriminate].
  rewrite (IH _ _ E2). exact H.
Qed.

(** X16. Raising [maxBytes] never changes a successful result of the legacy encoder. *)
Theorem legacy_monotone_in_maxBytes (message : string) (atts : option (list ChatAttachment)) (m m' : N) r :
  (m <= m')%N ->
  buildMessageWithAttachments message atts (Some (Some m)) = Ok r ->
  buildMessageWithAttachments message atts (Some (Some m')) = Ok r.
Proof.
  intros Hle. unfold buildMessageWithAttachments. destruct atts as [[|a rest]|]; try tauto.
  destruct (legacy_loop m 0 (a :: rest)) as [bs|e] eqn:E; [|discriminate].
  rewrite (legacy_loop_mono _ _ _ _ _ Hle E). tauto.
Qed.

(* structure of the legacy output *)
Lemma ws_runs_no_ws (prev : bool) (s : string) :
  forall_chars (fun c => negb (is_ws c)) (ws_runs_to_underscore prev s) = true.
Proof.
  revert prev. induction s as [|c r IH]; intros prev; simpl; [reflexivity|].
  destruct (is_ws c) eqn:W; [destruct prev|]; simpl; rewrite ?W, IH; reflexivity.
Qed.

Lemma legacy_loop_ok (m : N) (atts : list ChatAttachment) (idx : nat) (blocks : list string) :
  legacy_loop m idx atts = Ok blocks ->
  length blocks = length atts /\
  forall k a, nth_error atts k = Some a ->
    exists b, nth_error blocks k = Some b /\ legacy_step m (idx + k) a = Ok b.
Proof.
  revert idx blocks. induction atts as [|a rest IH]; intros idx blocks H.
  - simpl in H. injection H as <-. split; [reflexivity|]. intros [|k] x Hk; discriminate.
  - simpl in H. destruct (legacy_step m idx a) as [b|e] eqn:E; [|discriminate].
    destruct (legacy_loop m (S idx) rest) as [bs|e] eqn:E2; [|discriminate].
    injection H as <-. destruct (IH _ _ E2) as [Hl Hk].
    split; [simpl; rewrite Hl; reflexivity|].
    intros [|k] x Hx; simpl in Hx.
    + injection Hx as <-. exists b. rewrite Nat.add_0_r. split; [reflexivity|exact E].
    + destruct (Hk k x Hx) as [b' [Hb' Hs]]. exists b'. split; [exact Hb'|].
      replace (idx + S k) with (S idx + k) by lia. exact Hs.
Qed.

Lemma legacy_step_block (m : N) (idx : nat) (a : ChatAttachment) (b : string) :
  legacy_step m idx a = Ok b ->
  exists content label,
    att_content a = UString content /\
    startsWith (mime_or_empty a) "image/" = true /\
    forall_chars (fun c => negb (is_ws c)) label = true /\
    b = "![" ++ label ++ "](" ++ as_data_url (mime_or_empty a) content ++ ")".
Proof.
  unfold legacy_step. destruct (att_content a) as [content|]; [|discriminate].
  destruct (startsWith (mime_or_empty a) "image/") eqn:Hm; [|discriminate]. simpl negb. cbv iota.
  destruct (_ || has_illegal_b64 _); [discriminate|]. cbv zeta.
  destruct (size_out_of_range _ _); [discriminate|].
  intros H. injection H as <-.
  exists content, (ws_runs_to_underscore false (attachment_label idx a)).
  split; [reflexivity|]. split; [reflexivity|]. split; [apply ws_runs_no_ws|].
  unfold as_data_url. rewrite !string_app_assoc. reflexivity.
Qed.

(** X20. On success with a non-empty list, the legacy encoder returns the message, a blank-line separator when the trimmed message is non-empty, and one block per attachment joined by blank lines. Each block is [![label](data:<mime>;base64,<content>)], with a label that has no whitespace, the declared [image/] type, and the untrimmed content. *)
Theorem legacy_output_shape (message : string) (atts : list ChatAttachment) (opts : option (option N))
    (r : string) :
  atts <> [] ->
  buildMessageWithAttachments message (Some atts) opts = Ok r ->
  exists blocks,
    length blocks = length atts /\
    r = message ++ (if 0 <? String.length (trim message) then blank_line else "")
          ++ String.concat blank_line blocks /\
    forall k a, nth_error atts k = Some a ->
      exists b content label,
        nth_error blocks k = Some b /\
        att_content a = UString content /\
        startsWith (mime_or_empty a) "image/" = true /\
        forall_chars (fun c => negb (is_ws c)) label = true /\
        b = "![" ++ label ++ "](" ++ as_data_url (mime_or_empty a) content ++ ")".
Proof.
  intros Hne. unfold buildMessageWithAttachments. destruct atts as [|x l]; [congruence|].
  set (m := match opts with Some (Some m) => m | _ => 2000000%N end).
  destruct (legacy_loop m 0 (x :: l)) as [blocks|e] eqn:E; [|discriminate].
  destruct (legacy_loop_ok _ _ _ _ E) as [Hl Hk].
  destruct blocks as [|b0 bs]; [discriminate|].
  intros H. injection H as <-.
  exists (b0 :: bs). split; [exact Hl|]. split; [reflexivity|].
  intros k a Ha. destruct (Hk k a Ha) as [b [Hb Hs]].
  destruct (legacy_step_block _ _ _ _ Hs) as [content [label [Hc [Hm [Hw Hbe]]]]].
  exists b, content, label. tauto.
Qed.

(* ------------------------------------------------------------------ *)
(** ** Witnesses of the further properties *)

Lemma jpeg_data_url_pair :
  Forall2 same_or_data_url
    [attachment_of (Some "image/jpeg") (as_data_url "image/jpeg" jpeg_urlsafe_b64)]
    [jpeg_urlsafe_att].
Proof.
  constructor; [|constructor]. right.
  split; [reflexivity|]. split; [reflexivity|]. split; [reflexivity|].
  exists "image/jpeg", jpeg_urlsafe_b64.
  split; [discriminate|]. split; [vm_compute; reflexivity|]. split; [vm_compute; reflexivity|].
  split; reflexivity.
Qed.

Lemma ogg_data_url_pair :
  Forall2 same_or_data_url
    [attachment_of (Some "audio/ogg") (as_data_url "audio/ogg" ogg_b64)] [ogg_att].
Proof.
  constructor; [|constructor]. right.
  split; [reflexivity|]. split; [reflexivity|]. split; [reflexivity|].
  exists "audio/ogg", ogg_b64.
  split; [discriminate|]. split; [vm_compute; reflexivity|]. split; [vm_compute; reflexivity|].
  split; reflexivity.
Qed.

Lemma data_url_roundtrip_witness :
  stripDataUrlPrefix (as_data_url "image/jpeg" jpeg_urlsafe_b64) = jpeg_urlsafe_b64 /\
  normalizeBase64ForDecode (as_data_url "image/jpeg" jpeg_urlsafe_b64)
  = normalizeBase64ForDecode jpeg_urlsafe_b64.
Proof.
  apply data_url_roundtrip; [discriminate | vm_compute; reflexivity | vm_compute; reflexivity].
Defined.

Lemma malformed_data_url_rejected_witness :
  has_illegal_b64 (normalizeBase64ForDecode "data:image/png,iVBORw0KGgo=") = true.
Proof. apply malformed_data_url_rejected; vm_compute; reflexivity. Defined.

Lemma decoded_size_three_quarters_witness :
  length (bufferFromBase64 ("iVBORw0KGgo" ++ "=")) = 3 * String.length "iVBORw0KGgo" / 4.
Proof.
  apply decoded_size_three_quarters; [vm_compute; reflexivity | right; left; reflexivity].
Defined.

Lemma sniff_short_content_none_witness : sniffMimeFromBase64 detectMimeSpec "QUJD" = None.
Proof. apply sniff_short_content_none. apply Nat.ltb_lt. vm_compute. reflexivity. Defined.

Lemma lenient_images_well_formed_witness :
  Forall (image_record_ok 5000000)
    [{| img_type := "image"; img_data := png_b64; img_mimeType := "image/png" |}].
Proof.
  refine (lenient_images_well_formed detectMimeSpec "look" (Some [png_att]) None []
            {| parsed_message := "look";
               parsed_images := [{| img_type := "image"; img_data := png_b64;
                                    img_mimeType := "image/png" |}] |} _).
  vm_compute. reflexivity.
Defined.

Lemma lenient_at_most_one_warning_and_image_each_witness :
  let atts := [attachment_of (Some "application/pdf") pdf_b64; png_att] in
  let opts := Some {| opt_maxBytes := None; opt_log := true |} in
  let res := parseMessageWithAttachments detectMimeSpec "look" (Some atts) opts in
  fst res <> [] /\
  (exists per : list (list string),
     fst res = concat per /\ length per <= length atts /\
     forall k w, nth_error per k = Some w ->
       length w <= 1 /\
       exists a img w0, nth_error atts k = Some a /\
         parse_step detectMimeSpec 5000000 k a = Ok (img, w0) /\
         w = w0) /\
  (forall p, snd res = Ok p ->
     exists per_img : list (option ChatImageContent),
       length per_img = length atts /\
       parsed_images p = concat (map option_to_list per_img) /\
       forall k o, nth_error per_img k = Some o ->
         exists a w0, nth_error atts k = Some a /\
           parse_step detectMimeSpec 5000000 k a = Ok (o, w0)).
Proof.
  cbv zeta. split; [vm_compute; discriminate|].
  apply (lenient_at_most_one_warning_and_image_each detectMimeSpec "look"
           [attachment_of (Some "application/pdf") pdf_b64; png_att]
           (Some {| opt_maxBytes := None; opt_log := true |})).
  vm_compute. reflexivity.
Defined.

Lemma lenient_silent_drop_only_audio_witness :
  isAudioMime (normalizeMime (att_mimeType ogg_att)) = true \/
  isAudioMime (normalizeMime (sniffMimeFromBase64 detectMimeSpec (normalizeBase64ForDecode ogg_b64)))
  = true.
Proof.
  apply (lenient_silent_drop_only_audio detectMimeSpec 5000000 0 ogg_att ogg_b64 eq_refl).
  vm_compute. reflexivity.
Defined.

Lemma audio_and_lenient_validation_agree_witness :
  decodeAndValidateAudioAttachment detectMimeSpec (attachment_of (Some "audio/ogg") "T2dn*")
    "T2dn*" 0 100 = Throw (InvalidBase64Content "attachment-1") <->
  parse_step detectMimeSpec 100 0 (attachment_of (Some "audio/ogg") "T2dn*")
  = Throw (InvalidBase64Content "attachment-1").
Proof. apply audio_and_lenient_validation_agree. reflexivity. Defined.

Lemma lenient_monotone_in_maxBytes_witness :
  parseMessageWithAttachments detectMimeSpec "look" (Some [png_att])
    (Some {| opt_maxBytes := Some 1000%N; opt_log := true |})
  = ([], Ok {| parsed_message := "look";
               parsed_images := [{| img_type := "image"; img_data := png_b64;
                                    img_mimeType := "image/png" |}] |}).
Proof.
  apply (lenient_monotone_in_maxBytes detectMimeSpec "look" (Some [png_att]) true 8 1000);
    [lia | vm_compute; reflexivity].
Defined.

Lemma audio_monotone_in_maxBytes_witness :
  getFirstAudioAttachment detectMimeSpec (Some [ogg_att]) 1000
  = Ok (Some {| buffer := bufferFromBase64 ogg_b64; audio_mimeType := "audio/ogg" |}).
Proof.
  apply (audio_monotone_in_maxBytes detectMimeSpec (Some [ogg_att]) 8 1000);
    [lia | vm_compute; reflexivity].
Defined.

Lemma legacy_monotone_in_maxBytes_witness :
  buildMessageWithAttachments "" (Some [png_att]) (Some (Some 1000%N))
  = Ok ("![attachment-1](data:image/png;base64," ++ png_b64 ++ ")").
Proof.
  apply (legacy_monotone_in_maxBytes "" (Some [png_att]) 8 1000);
    [lia | vm_compute; reflexivity].
Defined.

Lemma lenient_data_url_transparent_witness :
  parseMessageWithAttachments detectMimeSpec "look"
    (Some [attachment_of (Some "image/jpeg") (as_data_url "image/jpeg" jpeg_urlsafe_b64)]) None
  = parseMessageWithAttachments detectMimeSpec "look" (Some [jpeg_urlsafe_att]) None.
Proof. apply lenient_data_url_transparent. exact jpeg_data_url_pair. Defined.

Lemma audio_data_url_transparent_witness :
  getFirstAudioAttachment detectMimeSpec
    (Some [attachment_of (Some "audio/ogg") (as_data_url "audio/ogg" ogg_b64)]) 1000
  = getFirstAudioAttachment detectMimeSpec (Some [ogg_att]) 1000.
Proof. apply audio_data_url_transparent. exact ogg_data_url_pair. Defined.

Lemma audio_result_from_input_witness :
  exists a content, In a [ogg_att] /\ att_content a = UString content /\
    bufferFromBase64 ogg_b64 = bufferFromBase64 (normalizeBase64ForDecode content) /\
    (forall p, normalizeMime (att_mimeType a) = Some p -> "audio/ogg" = p).
Proof.
  apply (audio_result_from_input detectMimeSpec [ogg_att] 1000
           {| buffer := bufferFromBase64 ogg_b64; audio_mimeType := "audio/ogg" |}).
  vm_compute. reflexivity.
Defined.

Lemma legacy_output_shape_witness :
  exists blocks,
    length blocks = length [png_att] /\
    "look" ++ blank_line ++ "![attachment-1](data:image/png;base64," ++ png_b64 ++ ")" =
    "look" ++ (if 0 <? String.length (trim "look") then blank_line else "")
      ++ String.concat blank_line blocks /\
    forall k a, nth_error [png_att] k = Some a ->
      exists b content label,
        nth_error blocks k = Some b /\
        att_content a = UString content /\
        startsWith (mime_or_empty a) "image/" = true /\
        forall_chars (fun c => negb (is_ws c)) label = true /\
        b = "![" ++ label ++ "](" ++ as_data_url (mime_or_empty a) content ++ ")".
Proof.
  apply (legacy_output_shape "look" [png_att] None); [discriminate|].
  vm_compute. reflexivity.
Defined.
